(** * Group chat server: message ingestion and fan-out

    A shallow embedding of [server.js] (the Express routes for a group's
    messages and the Socket.IO handlers) and of [setup-database.js] (the
    schema the server runs on).

    The two external collaborators are modelled next to the handlers:
    - the MySQL store reached through [db.execute], as a record of tables and
      one transition per statement text appearing in the source;
    - the Socket.IO rooms, as the in-memory adapter's two maps.

    Handlers are written once, as programs over these two collaborators whose
    only suspension points are the [await db.execute(...)] calls.  The
    programs are then run either to completion ([run]) or interleaved at
    their suspension points ([perform], [steps]).

    What the model takes for granted:
    - the server accepts [groups] as a table name and runs in strict SQL mode;
    - [express.json()] hands the POST handler an object ([{}] when the
      request has no JSON body); [post_request] covers a [req.body] that is
      none;
    - a group id is written as the decimal text of an integer, and as a
      number it is small enough to print in full digits;
    - every statement goes through the one connection [db], so statements run
      one at a time;
    - console output is not modelled. *)

From stdpp Require Import base option list gmap strings pretty relations sorting.
From Stdlib Require Import ZArith Ascii String Sorting.Sorted Permutation.
Open Scope Z_scope.

(* [set_solver] clears hypotheses it has already consumed. *)
#[local] Set Warnings "-clear-no-such-hyp".

(** ** JavaScript values

    The values that travel through the handlers: request fields, bind
    parameters and the [groupId] of a room name.  Numbers are the integers;
    fractional numbers and object-valued fields are outside the model. *)

Inductive JsVal : Type :=
| JUndefined
| JNull
| JBool (b : bool)
| JNum (n : Z)
| JStr (s : string).

#[global] Instance JsVal_eq_dec : EqDecision JsVal.
Proof. solve_decision. Defined.

(** [ToBoolean]: the test behind [a || b]. *)
Definition truthy (v : JsVal) : bool :=
  match v with
  | JUndefined | JNull => false
  | JBool b => b
  | JNum n => negb (n =? 0)
  | JStr s => negb (String.eqb s "")
  end.

(** [a || b] *)
Definition js_or (a b : JsVal) : JsVal := if truthy a then a else b.

(** The text a value contributes to a template literal [`group_${v}`]. *)
Definition to_template (v : JsVal) : string :=
  match v with
  | JUndefined => "undefined"
  | JNull => "null"
  | JBool true => "true"
  | JBool false => "false"
  | JNum n => pretty n
  | JStr s => s
  end.

(** [`group_${groupId}`] *)
Definition room_of (groupId : JsVal) : string := "group_" +:+ to_template groupId.

(** A JSON object as the handlers destructure it: a missing key reads as
    [undefined]. *)
Definition JsObj := list (string * JsVal).

Fixpoint field (o : JsObj) (k : string) : JsVal :=
  match o with
  | [] => JUndefined
  | (k', v) :: o' => if String.eqb k' k then v else field o' k
  end.

(** ** Conversions done by the store

    Bind parameters reach the server typed as they are in JavaScript and are
    converted to the column type on assignment.  The model follows strict SQL
    mode (the server default): a value that does not fit the column is an
    error, not a truncation.  A string converts to an integer when it is an
    optional minus sign followed by decimal digits.

    Strings are modelled as far as the decimal texts of integers go, which
    is what a client sends for a group id.  The server reads more strings as
    numbers (blanks around the digits, a plus sign, a fraction, an
    exponent); on those the model is not the server, and the results that
    depend on the conversion of a string are stated for decimal texts
    ([pretty n]). *)

Definition digit_of (c : ascii) : option Z :=
  let n := Z.of_nat (nat_of_ascii c) in
  if (48 <=? n) && (n <=? 57) then Some (n - 48) else None.

(** Longest prefix of digits, as a number, with what follows it. *)
Fixpoint read_digits (acc : Z) (s : string) : Z * string :=
  match s with
  | EmptyString => (acc, EmptyString)
  | String c s' =>
      match digit_of c with
      | Some d => read_digits (10 * acc + d) s'
      | None => (acc, s)
      end
  end.

Definition starts_with_digit (s : string) : bool :=
  match s with
  | String c _ => bool_decide (is_Some (digit_of c))
  | EmptyString => false
  end.

(** Sign, magnitude of the leading digits, and the unread rest. *)
Definition read_int (s : string) : bool * Z * string :=
  match s with
  | String "-"%char s' =>
      if starts_with_digit s' then
        let '(n, rest) := read_digits 0 s' in (true, - n, rest)
      else (false, 0, s)
  | _ =>
      if starts_with_digit s then
        let '(n, rest) := read_digits 0 s in (true, n, rest)
      else (false, 0, s)
  end.

(** Assignment to an integer column: the whole string must be a number. *)
Definition int_of_string (s : string) : option Z :=
  match read_int s with
  | (true, n, EmptyString) => Some n
  | _ => None
  end.

(** Comparison of a string with an integer column: the leading number, [0]
    when there is none (a warning, never an error). *)
Definition numeric_prefix (s : string) : Z :=
  let '(_, n, _) := read_int s in n.

(** ** Errors

    What a handler's [catch (error)] can receive: the driver's own
    [TypeError]s, a closed connection, and the server's error codes. *)

Inductive JsError : Type :=
| TypeError_db_undefined        (* [db.execute] with [db] never assigned *)
| TypeError_bind_undefined      (* "Bind parameters must not contain undefined" *)
| TypeError_destructure         (* destructuring [undefined] or [null] *)
| PROTOCOL_CONNECTION_LOST
| ER_NO_SUCH_TABLE
| ER_BAD_NULL_ERROR
| ER_TRUNCATED_WRONG_VALUE_FOR_FIELD
| ER_WARN_DATA_OUT_OF_RANGE
| ER_DATA_TOO_LONG
| ER_NO_REFERENCED_ROW_2
| ER_FK_CANNOT_OPEN_PARENT
| ER_DUP_KEYNAME
| ER_AUTOINC_READ_FAILED
| ER_WRONG_ARGUMENTS.

#[global] Instance JsError_eq_dec : EqDecision JsError.
Proof. solve_decision. Defined.

#[global] Instance result_ret : MRet (sum JsError) := λ _ x, inr x.
#[global] Instance result_bind : MBind (sum JsError) := λ _ _ f r,
  match r with inl e => inl e | inr x => f x end.

Definition check (b : bool) (e : JsError) : JsError + unit :=
  if b then inr () else inl e.

(** ** The store: rows, tables, schema *)

Record Group : Type := mkGroup {
  grp_id : Z;
  name : string;
  grp_created_at : Z
}.

Record Message : Type := mkMessage {
  msg_id : Z;
  group_id : option Z;
  sender_name : option string;
  message : string;
  is_anonymous : option Z;
  created_at : Z
}.

#[global] Instance Group_eq_dec : EqDecision Group.
Proof. solve_decision. Defined.
#[global] Instance Message_eq_dec : EqDecision Message.
Proof. solve_decision. Defined.

(** A groups-shaped table ([groups] and [user_groups] have the same
    columns). *)
Record GroupsTable : Type := mkGroupsTable {
  g_rows : list Group;
  g_auto_increment : Z
}.

(** The [messages] table.  Its two [CREATE TABLE] texts differ in the
    [group_id] column: [setup-database.js] declares it [NOT NULL] without a
    foreign key, [server.js] declares it nullable with
    [FOREIGN KEY (group_id) REFERENCES user_groups(id)]. *)
Record MessagesTable : Type := mkMessagesTable {
  group_id_not_null : bool;
  references_user_groups : bool;
  m_rows : list Message;
  m_auto_increment : Z
}.

Record Database : Type := mkDatabase {
  groups : option GroupsTable;
  user_groups : option GroupsTable;
  messages : option MessagesTable;
  users : bool;
  idx_group_id : bool;
  idx_created_at : bool
}.

(** The database [group_chat] right after [CREATE DATABASE]. *)
Definition empty_database : Database :=
  mkDatabase None None None false false false.

Definition stored (D : Database) : list Message :=
  match messages D with Some t => m_rows t | None => [] end.

Definition INT_MAX : Z := 2147483647.
Definition INT_MIN : Z := -2147483648.

Definition in_range (lo hi n : Z) : bool := (lo <=? n) && (n <=? hi).

(** Assignment of a bind parameter to an integer column ([None] is SQL
    [NULL]); booleans travel as [1] and [0]. *)
Definition to_int_column (lo hi : Z) (v : JsVal) : JsError + option Z :=
  match v with
  | JUndefined => inl TypeError_bind_undefined
  | JNull => inr None
  | JBool b => inr (Some (if b then 1 else 0))
  | JNum n =>
      if in_range lo hi n then inr (Some n) else inl ER_WARN_DATA_OUT_OF_RANGE
  | JStr s =>
      match int_of_string s with
      | Some n =>
          if in_range lo hi n then inr (Some n) else inl ER_WARN_DATA_OUT_OF_RANGE
      | None => inl ER_TRUNCATED_WRONG_VALUE_FOR_FIELD
      end
  end.

(** Assignment to a character column holding at most [maxlen] characters. *)
Definition to_text_column (maxlen : Z) (v : JsVal) : JsError + option string :=
  match v with
  | JUndefined => inl TypeError_bind_undefined
  | JNull => inr None
  | JBool b => inr (Some (if b then "1" else "0")%string)
  | JNum n => inr (Some (pretty n))
  | JStr s =>
      if Z.of_nat (String.length s) <=? maxlen then inr (Some s)
      else inl ER_DATA_TOO_LONG
  end.

Definition not_null {A} (o : option A) : JsError + A :=
  match o with Some x => inr x | None => inl ER_BAD_NULL_ERROR end.

(** The number a parameter stands for in a comparison with an integer
    column; a comparison with [NULL] selects nothing. *)
Definition sql_number (v : JsVal) : option Z :=
  match v with
  | JUndefined | JNull => None
  | JBool b => Some (if b then 1 else 0)
  | JNum n => Some n
  | JStr s => Some (numeric_prefix s)
  end.

(** [WHERE group_id = ?] *)
Definition where_group_id (p : JsVal) (r : Message) : bool :=
  match group_id r, sql_number p with
  | Some g, Some n => g =? n
  | _, _ => false
  end.

(** [WHERE id = ?] *)
Definition where_id (p : JsVal) (r : Message) : bool :=
  match sql_number p with
  | Some n => msg_id r =? n
  | None => false
  end.

(** [WHERE name = ?] *)
Definition where_name (p : JsVal) (g : Group) : bool :=
  match p with
  | JStr s => String.eqb (name g) s
  | _ => false
  end.

(** [ORDER BY created_at ASC]: rows with equal timestamps keep the order in
    which they are stored. *)
Fixpoint insert_by_created_at (r : Message) (l : list Message) : list Message :=
  match l with
  | [] => [r]
  | r' :: l' =>
      if created_at r <=? created_at r' then r :: l
      else r' :: insert_by_created_at r l'
  end.

Definition order_by_created_at (l : list Message) : list Message :=
  foldr insert_by_created_at [] l.

(** ** Statements

    One constructor per statement text passed to [execute] in the two source
    files. *)

Inductive Sql : Type :=
| CREATE_TABLE_groups             (* both files *)
| CREATE_TABLE_messages_setup     (* setup-database.js, createMessagesSQL *)
| CREATE_TABLE_messages_server    (* server.js, createMessagesTable *)
| CREATE_TABLE_users              (* both files *)
| CREATE_INDEX_idx_group_id
| CREATE_INDEX_idx_created_at
| SELECT_groups_WHERE_name
| INSERT_INTO_groups
| SELECT_user_groups_WHERE_name
| INSERT_INTO_user_groups
| SELECT_COUNT_messages
| SELECT_COUNT_groups
| SHOW_TABLES
| SELECT_messages_WHERE_group_id  (* ... ORDER BY created_at ASC *)
| INSERT_INTO_messages
| SELECT_messages_WHERE_id.

(** The first component of what [execute] resolves to. *)
Inductive ResultSet : Type :=
| OkPacket (insertId : Z)
| MessageRows (l : list Message)
| GroupRows (l : list Group)
| CountRows (count : Z)
| TableRows (l : list string).

Definition insert_into_groups (t : GroupsTable) (ps : list JsVal) (now : Z)
  : JsError + (Z * GroupsTable) :=
  match ps with
  | [n] =>
      nm ← to_text_column 255 n ≫= not_null;
      _ ← check (g_auto_increment t <=? INT_MAX) ER_AUTOINC_READ_FAILED;
      mret (g_auto_increment t,
            mkGroupsTable (g_rows t ++ [mkGroup (g_auto_increment t) nm now])
                          (g_auto_increment t + 1))
  | _ => inl ER_WRONG_ARGUMENTS
  end.

(** The foreign key of [server.js]'s [messages] table, when the table has
    it: a non-[NULL] [group_id] must be the id of a [user_groups] row. *)
Definition references_ok (D : Database) (t : MessagesTable) (g : option Z) : bool :=
  if references_user_groups t then
    match g, user_groups D with
    | None, _ => true
    | Some n, Some ug => bool_decide (n ∈ grp_id <$> g_rows ug)
    | Some _, None => false
    end
  else true.

(** [INSERT INTO messages (group_id, sender_name, message, is_anonymous)
    VALUES (?, ?, ?, ?)]: either one whole row is appended under the next
    AUTO_INCREMENT id, or the table is left as it is. *)
Definition insert_into_messages (D : Database) (t : MessagesTable)
    (ps : list JsVal) (now : Z) : JsError + (Z * MessagesTable) :=
  match ps with
  | [g; s; m; a] =>
      gid ← to_int_column INT_MIN INT_MAX g;
      _ ← check (negb (group_id_not_null t) || bool_decide (is_Some gid))
                ER_BAD_NULL_ERROR;
      sn ← to_text_column 255 s;
      txt ← to_text_column 65535 m ≫= not_null;
      anon ← to_int_column (-128) 127 a;
      _ ← check (references_ok D t gid) ER_NO_REFERENCED_ROW_2;
      _ ← check (m_auto_increment t <=? INT_MAX) ER_AUTOINC_READ_FAILED;
      mret (m_auto_increment t,
            mkMessagesTable (group_id_not_null t) (references_user_groups t)
              (m_rows t ++ [mkMessage (m_auto_increment t) gid sn txt anon now])
              (m_auto_increment t + 1))
  | _ => inl ER_WRONG_ARGUMENTS
  end.

Definition table_names (D : Database) : list string :=
  (if groups D is Some _ then ["groups"] else []) ++
  (if messages D is Some _ then ["messages"] else []) ++
  (if user_groups D is Some _ then ["user_groups"] else []) ++
  (if users D then ["users"] else []).

Definition with_groups (D : Database) (t : GroupsTable) : Database :=
  mkDatabase (Some t) (user_groups D) (messages D) (users D)
             (idx_group_id D) (idx_created_at D).
Definition with_user_groups (D : Database) (t : GroupsTable) : Database :=
  mkDatabase (groups D) (Some t) (messages D) (users D)
             (idx_group_id D) (idx_created_at D).
Definition with_messages (D : Database) (t : MessagesTable) : Database :=
  mkDatabase (groups D) (user_groups D) (Some t) (users D)
             (idx_group_id D) (idx_created_at D).

(** What the server does with one statement: the result or the error, and the
    database afterwards. *)
Definition execute_sql (q : Sql) (ps : list JsVal) (now : Z) (D : Database)
  : (JsError + ResultSet) * Database :=
  match q with
  | CREATE_TABLE_groups =>
      match groups D with
      | Some _ => (inr (OkPacket 0), D)
      | None => (inr (OkPacket 0), with_groups D (mkGroupsTable [] 1))
      end
  | CREATE_TABLE_messages_setup =>
      match messages D with
      | Some _ => (inr (OkPacket 0), D)
      | None => (inr (OkPacket 0), with_messages D (mkMessagesTable true false [] 1))
      end
  | CREATE_TABLE_messages_server =>
      match messages D, user_groups D with
      | Some _, _ => (inr (OkPacket 0), D)
      | None, None => (inl ER_FK_CANNOT_OPEN_PARENT, D)
      | None, Some _ =>
          (inr (OkPacket 0), with_messages D (mkMessagesTable false true [] 1))
      end
  | CREATE_TABLE_users =>
      (inr (OkPacket 0),
       mkDatabase (groups D) (user_groups D) (messages D) true
                  (idx_group_id D) (idx_created_at D))
  | CREATE_INDEX_idx_group_id =>
      match messages D with
      | None => (inl ER_NO_SUCH_TABLE, D)
      | Some _ =>
          if idx_group_id D then (inl ER_DUP_KEYNAME, D)
          else (inr (OkPacket 0),
                mkDatabase (groups D) (user_groups D) (messages D) (users D)
                           true (idx_created_at D))
      end
  | CREATE_INDEX_idx_created_at =>
      match messages D with
      | None => (inl ER_NO_SUCH_TABLE, D)
      | Some _ =>
          if idx_created_at D then (inl ER_DUP_KEYNAME, D)
          else (inr (OkPacket 0),
                mkDatabase (groups D) (user_groups D) (messages D) (users D)
                           (idx_group_id D) true)
      end
  | SELECT_groups_WHERE_name =>
      match groups D, ps with
      | None, _ => (inl ER_NO_SUCH_TABLE, D)
      | Some t, [n] => (inr (GroupRows (List.filter (where_name n) (g_rows t))), D)
      | Some _, _ => (inl ER_WRONG_ARGUMENTS, D)
      end
  | INSERT_INTO_groups =>
      match groups D with
      | None => (inl ER_NO_SUCH_TABLE, D)
      | Some t =>
          match insert_into_groups t ps now with
          | inl e => (inl e, D)
          | inr (i, t') => (inr (OkPacket i), with_groups D t')
          end
      end
  | SELECT_user_groups_WHERE_name =>
      match user_groups D, ps with
      | None, _ => (inl ER_NO_SUCH_TABLE, D)
      | Some t, [n] => (inr (GroupRows (List.filter (where_name n) (g_rows t))), D)
      | Some _, _ => (inl ER_WRONG_ARGUMENTS, D)
      end
  | INSERT_INTO_user_groups =>
      match user_groups D with
      | None => (inl ER_NO_SUCH_TABLE, D)
      | Some t =>
          match insert_into_groups t ps now with
          | inl e => (inl e, D)
          | inr (i, t') => (inr (OkPacket i), with_user_groups D t')
          end
      end
  | SELECT_COUNT_messages =>
      match messages D with
      | None => (inl ER_NO_SUCH_TABLE, D)
      | Some t => (inr (CountRows (Z.of_nat (List.length (m_rows t)))), D)
      end
  | SELECT_COUNT_groups =>
      match groups D with
      | None => (inl ER_NO_SUCH_TABLE, D)
      | Some t => (inr (CountRows (Z.of_nat (List.length (g_rows t)))), D)
      end
  | SHOW_TABLES => (inr (TableRows (table_names D)), D)
  | SELECT_messages_WHERE_group_id =>
      match messages D, ps with
      | None, _ => (inl ER_NO_SUCH_TABLE, D)
      | Some t, [g] =>
          (inr (MessageRows
                  (order_by_created_at (List.filter (where_group_id g) (m_rows t)))),
           D)
      | Some _, _ => (inl ER_WRONG_ARGUMENTS, D)
      end
  | INSERT_INTO_messages =>
      match messages D with
      | None => (inl ER_NO_SUCH_TABLE, D)
      | Some t =>
          match insert_into_messages D t ps now with
          | inl e => (inl e, D)
          | inr (i, t') => (inr (OkPacket i), with_messages D t')
          end
      end
  | SELECT_messages_WHERE_id =>
      match messages D, ps with
      | None, _ => (inl ER_NO_SUCH_TABLE, D)
      | Some t, [i] => (inr (MessageRows (List.filter (where_id i) (m_rows t))), D)
      | Some _, _ => (inl ER_WRONG_ARGUMENTS, D)
      end
  end.

(** ** Rooms

    Socket.IO's in-memory adapter: [rooms] maps a room to the socket ids in
    it, [sids] maps a socket id to the rooms it is in.  [socket.join(room)]
    is [addAll], [socket.leave(room)] is [del], and closing a socket is
    [delAll], which walks the socket's own entry of [sids]. *)

Record Adapter : Type := mkAdapter {
  sids : gmap string (gset string);
  rooms : gmap string (gset string)
}.

Definition addAll (id room : string) (a : Adapter) : Adapter :=
  mkAdapter (<[id := {[room]} ∪ default ∅ (sids a !! id)]> (sids a))
            (<[room := {[id]} ∪ default ∅ (rooms a !! room)]> (rooms a)).

(** Remove [id] from [room]; a room left empty is dropped from the map. *)
Definition del_room (id room : string) (rs : gmap string (gset string))
  : gmap string (gset string) :=
  match rs !! room with
  | Some s =>
      if decide (s ∖ {[id]} = ∅) then delete room rs
      else <[room := s ∖ {[id]}]> rs
  | None => rs
  end.

Definition del (id room : string) (a : Adapter) : Adapter :=
  mkAdapter
    (match sids a !! id with
     | Some s => <[id := s ∖ {[room]}]> (sids a)
     | None => sids a
     end)
    (del_room id room (rooms a)).

Definition delAll (id : string) (a : Adapter) : Adapter :=
  match sids a !! id with
  | None => a
  | Some s => mkAdapter (delete id (sids a)) (set_fold (del_room id) (rooms a) s)
  end.

(** The sockets [io.to(room)] reaches. *)
Definition subscribersOf (room : string) (a : Adapter) : gset string :=
  default ∅ (rooms a !! room).

(** ** The process state *)

(** The module-level [let db]: never assigned when [createConnection]
    failed, otherwise one connection, which may since have been lost. *)
Inductive DbVar : Type :=
| db_undefined
| db_connection (open : bool).

(** One [io.to(room).emit(event, payload)], with the sockets that were in
    the room when it ran; [None] is an [undefined] payload. *)
Record Emission : Type := mkEmission {
  to : string;
  event : string;
  payload : option Message;
  recipients : gset string
}.

Record World : Type := mkWorld {
  db : DbVar;
  store : Database;
  now : Z;                      (* the store's CURRENT_TIMESTAMP *)
  adapter : Adapter;
  outbox : list Emission
}.

Definition set_store (w : World) (D : Database) : World :=
  mkWorld (db w) D (now w) (adapter w) (outbox w).
Definition set_adapter (w : World) (a : Adapter) : World :=
  mkWorld (db w) (store w) (now w) a (outbox w).
Definition set_db (w : World) (v : DbVar) : World :=
  mkWorld v (store w) (now w) (adapter w) (outbox w).
Definition set_now (w : World) (t : Z) : World :=
  mkWorld (db w) (store w) t (adapter w) (outbox w).

Definition emit_to (room ev : string) (p : option Message) (w : World) : World :=
  mkWorld (db w) (store w) (now w) (adapter w)
          (outbox w ++ [mkEmission room ev p (subscribersOf room (adapter w))]).

(** [db.execute(sql, params)] as the driver performs it: reading [execute]
    off an [undefined] [db] throws; an [undefined] bind parameter is refused
    before anything is sent; a lost connection rejects; otherwise the server
    runs the statement. *)
Definition db_execute (q : Sql) (ps : list JsVal) (w : World)
  : (JsError + ResultSet) * World :=
  match db w with
  | db_undefined => (inl TypeError_db_undefined, w)
  | db_connection open =>
      if bool_decide (JUndefined ∈ ps) then (inl TypeError_bind_undefined, w)
      else if open then
        let '(r, D') := execute_sql q ps (now w) (store w) in (r, set_store w D')
      else (inl PROTOCOL_CONNECTION_LOST, w)
  end.

(** ** Handler programs

    A handler body is a tree of effects.  [Await] is [await db.execute(...)]:
    the handler is suspended there and resumed with the outcome.  The other
    effects are synchronous. *)

Inductive Prog (A : Type) : Type :=
| Ret (a : A)
| Throw (e : JsError)
| Await (q : Sql) (ps : list JsVal) (k : JsError + ResultSet → Prog A)
| Emit (room ev : string) (p : option Message) (k : Prog A)
| Join (id room : string) (k : Prog A)
| Leave (id room : string) (k : Prog A).
Arguments Ret {A} a.
Arguments Throw {A} e.
Arguments Await {A} q ps k.
Arguments Emit {A} room ev p k.
Arguments Join {A} id room k.
Arguments Leave {A} id room k.

Fixpoint prog_bind {A B} (f : A → Prog B) (p : Prog A) : Prog B :=
  match p with
  | Ret a => f a
  | Throw e => Throw e
  | Await q ps k => Await q ps (λ r, prog_bind f (k r))
  | Emit room ev m k => Emit room ev m (prog_bind f k)
  | Join id room k => Join id room (prog_bind f k)
  | Leave id room k => Leave id room (prog_bind f k)
  end.

#[global] Instance Prog_ret : MRet Prog := @Ret.
#[global] Instance Prog_bind : MBind Prog := @prog_bind.

(** [try { p } catch (error) { h error }] *)
Fixpoint try_catch {A} (p : Prog A) (h : JsError → Prog A) : Prog A :=
  match p with
  | Ret a => Ret a
  | Throw e => h e
  | Await q ps k => Await q ps (λ r, try_catch (k r) h)
  | Emit room ev m k => Emit room ev m (try_catch k h)
  | Join id room k => Join id room (try_catch k h)
  | Leave id room k => Leave id room (try_catch k h)
  end.

(** [await db.execute(q, ps)]: a rejection is thrown at the [await]. *)
Definition execute (q : Sql) (ps : list JsVal) : Prog ResultSet :=
  Await q ps (λ r, match r with inl e => Throw e | inr x => Ret x end).

Definition emit (room ev : string) (p : option Message) : Prog unit :=
  Emit room ev p (Ret ()).
Definition join (id room : string) : Prog unit := Join id room (Ret ()).
Definition leave (id room : string) : Prog unit := Leave id room (Ret ()).

(** [result.insertId] *)
Definition insertId (r : ResultSet) : JsVal :=
  match r with OkPacket i => JNum i | _ => JUndefined end.

(** The row array of [const [messages] = await db.execute(...)]. *)
Definition message_rows (r : ResultSet) : list Message :=
  match r with MessageRows l => l | _ => [] end.

Definition group_rows (r : ResultSet) : list Group :=
  match r with GroupRows l => l | _ => [] end.

Definition count_of (r : ResultSet) : Z :=
  match r with CountRows n => n | _ => 0 end.

(** ** Running programs *)

Definition perform_join (id room : string) (w : World) : World :=
  set_adapter w (addAll id room (adapter w)).
Definition perform_leave (id room : string) (w : World) : World :=
  set_adapter w (del id room (adapter w)).

(** To completion, nothing else happening in between. *)
Fixpoint run {A} (p : Prog A) (w : World) : (JsError + A) * World :=
  match p with
  | Ret a => (inr a, w)
  | Throw e => (inl e, w)
  | Await q ps k => let '(r, w') := db_execute q ps w in run (k r) w'
  | Emit room ev m k => run k (emit_to room ev m w)
  | Join id room k => run k (perform_join id room w)
  | Leave id room k => run k (perform_leave id room w)
  end.

(** Up to the next [await] (or the end): the stretch of a handler that the
    event loop runs without giving control away. *)
Fixpoint advance {A} (p : Prog A) (w : World) : Prog A * World :=
  match p with
  | Emit room ev m k => advance k (emit_to room ev m w)
  | Join id room k => advance k (perform_join id room w)
  | Leave id room k => advance k (perform_leave id room w)
  | _ => (p, w)
  end.

(** ** setup-database.js

    The part of [setupDatabase] that runs on the [group_chat] database, from
    "Create tables" on.  Console output is not modelled. *)

Definition sampleMessages : list (string * string) :=
  [ ("Anonymous", "Someone order Bornvita!!");
    ("Anonymous", "hahahahah!!");
    ("Anonymous", "I'm Excited For this Event! Ho-Ho");
    ("Anonymous", "Hello!");
    ("Anonymous", "Yesssss!!!!!!!");
    ("Abhay Shukla", "We have Surprise For you!!") ]%string.

Definition ignore_errors (p : Prog unit) : Prog unit :=
  try_catch p (λ _, mret ()).

Definition setupDatabase : Prog unit :=
  try_catch
    (_ ← execute CREATE_TABLE_groups [];
     _ ← execute CREATE_TABLE_messages_setup [];
     ignore_errors (_ ← execute CREATE_INDEX_idx_group_id []; mret ());;
     ignore_errors (_ ← execute CREATE_INDEX_idx_created_at []; mret ());;
     _ ← execute CREATE_TABLE_users [];
     groups ← execute SELECT_groups_WHERE_name [JStr "Fun Friday Group"];
     (if bool_decide (List.length (group_rows groups) = 0%nat)
      then _ ← execute INSERT_INTO_groups [JStr "Fun Friday Group"]; mret ()
      else mret ());;
     existingMessages ← execute SELECT_COUNT_messages [];
     (if count_of existingMessages =? 0
      then foldr (λ msg rest,
                    _ ← execute INSERT_INTO_messages
                          [JNum 1; JStr msg.1; JStr msg.2;
                           JBool (String.eqb msg.1 "Anonymous")];
                    rest)
                 (mret ()) sampleMessages
      else mret ());;
     _ ← execute SHOW_TABLES [];
     _ ← execute SELECT_COUNT_messages [];
     _ ← execute SELECT_COUNT_groups [];
     mret ())
    (λ _, mret ()).

(** ** server.js *)

Definition createTables : Prog unit :=
  try_catch
    (_ ← execute CREATE_TABLE_groups [];
     _ ← execute CREATE_TABLE_messages_server [];
     _ ← execute CREATE_TABLE_users [];
     groups ← execute SELECT_user_groups_WHERE_name [JStr "Fun Friday Group"];
     (if bool_decide (List.length (group_rows groups) = 0%nat)
      then _ ← execute INSERT_INTO_user_groups [JStr "Fun Friday Group"]; mret ()
      else mret ());;
     _ ← execute SHOW_TABLES [];
     mret ())
    (λ _, mret ()).

(** [initDB]: [reachable] tells whether [mysql.createConnection] resolves.
    When it rejects, [db] stays unassigned and the server starts all the
    same. *)
Definition initDB (reachable : bool) (w : World) : World :=
  if reachable then (run createTables (set_db w (db_connection true))).2
  else w.

(** What a handler hands to its caller: [res.json(b)] (status 200 unless
    [res.status(s)] came first), or nothing for a socket event. *)
Inductive Body : Type :=
| rows_json (l : list Message)
| row_json (m : option Message)
| error_json (e : JsError).

Inductive Reply : Type :=
| res_json (status : Z) (b : Body)
| no_reply.

(** [app.get('/api/groups/:id/messages')] *)
Definition get_messages (id : string) : Prog Reply :=
  try_catch
    (messages ← execute SELECT_messages_WHERE_group_id [JStr id];
     mret (res_json 200 (rows_json (message_rows messages))))
    (λ error, mret (res_json 500 (error_json error))).

(** [app.post('/api/groups/:id/messages')], [body] being the object that
    [req.body] is *)
Definition post_messages (id : string) (body : JsObj) : Prog Reply :=
  let message := field body "message" in
  let sender_name := field body "sender_name" in
  let is_anonymous := field body "is_anonymous" in
  try_catch
    (result ← execute INSERT_INTO_messages
                [JStr id; js_or sender_name (JStr "Anonymous"); message;
                 js_or is_anonymous (JBool true)];
     newMessage ← execute SELECT_messages_WHERE_id [insertId result];
     emit (room_of (JStr id)) "new_message" (head (message_rows newMessage));;
     mret (res_json 200 (row_json (head (message_rows newMessage)))))
    (λ error, mret (res_json 500 (error_json error))).

(** The argument of a socket event: an object, or any other value. *)
Inductive JsData : Type :=
| data_object (o : JsObj)
| data_value (v : JsVal).

(** [const { ... } = data]: [undefined] and [null] cannot be destructured;
    other primitives have none of the fields. *)
Definition properties (data : JsData) : Prog JsObj :=
  match data with
  | data_object o => Ret o
  | data_value JUndefined | data_value JNull => Throw TypeError_destructure
  | data_value _ => Ret []
  end.

(** [socket.on('join_group')] *)
Definition on_join_group (socket : string) (groupId : JsVal) : Prog Reply :=
  join socket (room_of groupId);; mret no_reply.

(** [socket.on('leave_group')] *)
Definition on_leave_group (socket : string) (groupId : JsVal) : Prog Reply :=
  leave socket (room_of groupId);; mret no_reply.

(** [socket.on('send_message')] *)
Definition on_send_message (data : JsData) : Prog Reply :=
  try_catch
    (o ← properties data;
     let groupId := field o "groupId" in
     let message := field o "message" in
     let senderName := field o "senderName" in
     let isAnonymous := field o "isAnonymous" in
     result ← execute INSERT_INTO_messages
                [groupId; js_or senderName (JStr "Anonymous"); message;
                 js_or isAnonymous (JBool true)];
     newMessage ← execute SELECT_messages_WHERE_id [insertId result];
     emit (room_of groupId) "new_message" (head (message_rows newMessage));;
     mret no_reply)
    (λ error, mret no_reply).

(** [socket.on('disconnect')]: the handler itself only logs. *)
Definition on_disconnect (socket : string) : Prog Reply := mret no_reply.

(** [io.on('connection')]: Socket.IO has put the new socket in the room
    named by its own id; the callback registers the handlers above. *)
Definition connect (socket : string) (w : World) : World :=
  perform_join socket socket w.

(** A transport closing: Socket.IO takes the socket out of all its rooms,
    then fires ['disconnect']. *)
Definition disconnect (socket : string) (w : World) : World :=
  (run (on_disconnect socket) (set_adapter w (delAll socket (adapter w)))).2.

(** ** The event loop

    Requests arrive at any time; a handler runs up to its next [await], and
    suspended handlers are resumed in any order, each resumption executing
    the awaited statement and running the handler on to its next [await]. *)

Inductive Request : Type :=
| GET_messages (id : string)
| POST_messages (id : string) (body : JsObj)
| join_group (socket : string) (groupId : JsVal)
| leave_group (socket : string) (groupId : JsVal)
| send_message (socket : string) (data : JsData).

Definition handler (r : Request) : Prog Reply :=
  match r with
  | GET_messages id => get_messages id
  | POST_messages id body => post_messages id body
  | join_group socket groupId => on_join_group socket groupId
  | leave_group socket groupId => on_leave_group socket groupId
  | send_message _ data => on_send_message data
  end.

(** Socket events come from connected sockets. *)
Definition admissible (r : Request) (w : World) : bool :=
  match r with
  | GET_messages _ | POST_messages _ _ => true
  | join_group c _ | leave_group c _ | send_message c _ =>
      bool_decide (is_Some (sids (adapter w) !! c))
  end.

Record System : Type := mkSystem {
  world : World;
  pool : list (Prog Reply)
}.

(** What can happen next. *)
Inductive Action : Type :=
| arrive (r : Request)          (* a request or socket event comes in *)
| resume (i : nat)              (* the statement awaited by handler [i] runs *)
| open_socket (c : string)
| close_socket (c : string)
| clock (t : Z)                 (* the store's clock reads [t] from now on *)
| lose_connection.

Definition perform (a : Action) (s : System) : option System :=
  let w := world s in
  match a with
  | arrive r =>
      if admissible r w then
        let '(t, w') := advance (handler r) w in
        Some (mkSystem w' (pool s ++ [t]))
      else None
  | resume i =>
      match pool s !! i with
      | Some (Await q ps k) =>
          let '(r, w1) := db_execute q ps w in
          let '(t, w2) := advance (k r) w1 in
          Some (mkSystem w2 (<[i := t]> (pool s)))
      | _ => None
      end
  | open_socket c =>
      match sids (adapter w) !! c with
      | None => Some (mkSystem (connect c w) (pool s))
      | Some _ => None
      end
  | close_socket c =>
      match sids (adapter w) !! c with
      | Some _ => Some (mkSystem (disconnect c w) (pool s))
      | None => None
      end
  | clock t => Some (mkSystem (set_now w t) (pool s))
  | lose_connection =>
      match db w with
      | db_connection true => Some (mkSystem (set_db w (db_connection false)) (pool s))
      | _ => None
      end
  end.

Definition step (s s' : System) : Prop := ∃ a, perform a s = Some s'.

Definition steps : System → System → Prop := rtc step.

(** A whole schedule, one action after the other. *)
Fixpoint schedule (acts : list Action) (s : System) : option System :=
  match acts with
  | [] => Some s
  | a :: acts' => perform a s ≫= schedule acts'
  end.

(** The server as it starts listening: no socket, nothing emitted, no
    handler in flight. *)
Definition listening (s : System) : Prop :=
  adapter (world s) = mkAdapter ∅ ∅ ∧ outbox (world s) = [] ∧ pool s = [].

(** ** Concrete states

    The database after [node setup-database.js] on an empty [group_chat]
    (the store's clock reading 100 throughout), then the server started on
    it. *)

Definition setup_database : Database :=
  Eval vm_compute in
    store (run setupDatabase
             (mkWorld (db_connection true) empty_database 100 (mkAdapter ∅ ∅) [])).2.

Definition started_world : World :=
  initDB true (mkWorld db_undefined setup_database 100 (mkAdapter ∅ ∅) []).

Definition started : System := mkSystem started_world [].

(** A database in which [user_groups] was created by hand before the server
    first started, so that [server.js]'s own [CREATE TABLE messages] went
    through. *)
Definition server_made_world : World :=
  initDB true
    (mkWorld db_undefined
       (mkDatabase None (Some (mkGroupsTable [] 1)) None false false false)
       100 (mkAdapter ∅ ∅) []).

(** The end-to-end scenario: sockets A and B join group 1; a POST for group
    1 is handled; A disconnects; B sends over its socket. *)

Definition alice_hi : JsObj :=
  [("message", JStr "hi"); ("sender_name", JStr "Alice");
   ("is_anonymous", JBool false)].

Definition bye : JsData :=
  data_object [("groupId", JNum 1); ("message", JStr "bye")].

Definition hi_schedule : list Action :=
  [open_socket "A"; open_socket "B";
   arrive (join_group "A" (JNum 1)); arrive (join_group "B" (JNum 1));
   arrive (POST_messages "1" alice_hi); resume 2; resume 2].

Definition bye_schedule : list Action :=
  [close_socket "A"; arrive (send_message "B" bye); resume 3; resume 3].

(** What B would send to say what [alice_hi] says. *)
Definition alice_hi_event : JsObj :=
  [("groupId", JStr "1"); ("message", JStr "hi"); ("senderName", JStr "Alice");
   ("isAnonymous", JBool false)].

(** The same with the group id as a number. *)
Definition alice_hi_numeric_event : JsObj :=
  [("groupId", JNum 1); ("message", JStr "hi"); ("senderName", JStr "Alice");
   ("isAnonymous", JBool false)].

Definition after_hi : System := default started (schedule hi_schedule started).
Definition after_close : System :=
  default after_hi (perform (close_socket "A") after_hi).
Definition after_bye : System := default after_hi (schedule bye_schedule after_hi).

Definition hi_row : Message :=
  mkMessage 7 (Some 1) (Some "Alice") "hi" (Some 1) 100.
Definition bye_row : Message :=
  mkMessage 8 (Some 1) (Some "Anonymous") "bye" (Some 1) 100.

(** Two POSTs for group 1 in flight at once: the second one's [INSERT] runs
    first. *)
Definition racing_schedule : list Action :=
  [arrive (POST_messages "1" [("message", JStr "first")]);
   arrive (POST_messages "1" [("message", JStr "second")]);
   resume 1; resume 0; resume 0; resume 1].

Definition after_race : System :=
  default started (schedule racing_schedule started).

Definition race_second_row : Message :=
  mkMessage 7 (Some 1) (Some "Anonymous") "second" (Some 1) 100.
Definition race_first_row : Message :=
  mkMessage 8 (Some 1) (Some "Anonymous") "first" (Some 1) 100.

(** Two POSTs for group 1, one after the other, the store's clock having
    been set back by a second in between. *)
Definition clock_set_back : list Action :=
  [clock 200; arrive (POST_messages "1" [("message", JStr "first")]);
   resume 0; resume 0;
   clock 199; arrive (POST_messages "1" [("message", JStr "second")]);
   resume 1; resume 1].

Definition after_clock_set_back : System :=
  default started (schedule clock_set_back started).

(** The same two POSTs on [server_made_world], the clock advancing by a
    second in between. *)
Definition ticking_schedule : list Action :=
  [arrive (POST_messages "1" [("message", JStr "first")]);
   resume 0; resume 0;
   clock 101; arrive (POST_messages "1" [("message", JStr "second")]);
   resume 1; resume 1].

(** The rows of a history reply, and their ids, in the order of the reply. *)
Definition history_rows (r : JsError + Reply) : list Message :=
  match r with
  | inr (res_json _ (rows_json l)) => l
  | _ => []
  end.

Definition history_ids (r : JsError + Reply) : list Z :=
  msg_id <$> history_rows r.

(** A submit with an empty text, and one for a group that does not exist. *)
Definition empty_text : JsObj := [("message", JStr "")].
Definition empty_text_row : Message :=
  mkMessage 7 (Some 1) (Some "Anonymous") "" (Some 1) 100.

Definition stray_row : Message :=
  mkMessage 7 (Some 999) (Some "Anonymous") "hi" (Some 1) 100.


(** [g] is the id of a row of [groups] or of [user_groups]. *)
Definition group_exists (D : Database) (g : Z) : bool :=
  bool_decide (g ∈ grp_id <$> from_option g_rows [] (groups D)) ||
  bool_decide (g ∈ grp_id <$> from_option g_rows [] (user_groups D)).

Definition after_ticks : System :=
  default (mkSystem server_made_world [])
          (schedule ticking_schedule (mkSystem server_made_world [])).

(** ** Properties used as invariants *)

(** The rows a handler has been handed by the store. *)
Definition seen (r : JsError + ResultSet) : list Message :=
  match r with inr (MessageRows l) => l | _ => [] end.

(** [p] only ever emits rows it has been handed ([known] so far). *)
Fixpoint emits_seen {A} (known : list Message) (p : Prog A) : Prop :=
  match p with
  | Ret _ | Throw _ => True
  | Await q ps k => ∀ r, emits_seen (seen r ++ known) (k r)
  | Emit room ev m k => (∀ x, m = Some x → x ∈ known) ∧ emits_seen known k
  | Join _ _ k | Leave _ _ k => emits_seen known k
  end.

(** Everything emitted so far is stored, and the handlers in flight will
    only emit stored rows. *)
Definition emitted_stored (s : System) : Prop :=
  (∀ e m, e ∈ outbox (world s) → payload e = Some m →
          m ∈ stored (store (world s))) ∧
  Forall (λ t, ∃ known, known ⊆ stored (store (world s)) ∧ emits_seen known t)
         (pool s).

(** The ids of [messages] grow along the storage order and stay below the
    AUTO_INCREMENT counter. *)
Definition ids_ordered (D : Database) : Prop :=
  match messages D with
  | Some t =>
      StronglySorted (λ a b, msg_id a < msg_id b) (m_rows t) ∧
      Forall (λ r, msg_id r < m_auto_increment t) (m_rows t)
  | None => True
  end.

(** The rooms recorded for a socket. *)
Definition rooms_of (c : string) (a : Adapter) : gset string :=
  default ∅ (sids a !! c).

(** The adapter's two maps tell the same story. *)
Definition consistent (a : Adapter) : Prop :=
  ∀ c room, c ∈ subscribersOf room a ↔ room ∈ rooms_of c a.

(** Two handler bodies that perform the same effects in the same order and
    differ at most in what they return. *)
Inductive same_effects {A B} : Prog A → Prog B → Prop :=
| same_ret a b : same_effects (Ret a) (Ret b)
| same_throw e : same_effects (Throw e) (Throw e)
| same_await q ps k k' :
    (∀ r, same_effects (k r) (k' r)) →
    same_effects (Await q ps k) (Await q ps k')
| same_emit room ev m k k' :
    same_effects k k' → same_effects (Emit room ev m k) (Emit room ev m k')
| same_join id room k k' :
    same_effects k k' → same_effects (Join id room k) (Join id room k')
| same_leave id room k k' :
    same_effects k k' → same_effects (Leave id room k) (Leave id room k').

(** [ORDER BY] keys of a result. *)
Definition by_created_at (a b : Message) : Prop := created_at a <= created_at b.
Definition by_id (a b : Message) : Prop := msg_id a < msg_id b.

(** The bind parameters both ingress handlers build for their [INSERT]. *)
Definition submitted (groupId senderName message isAnonymous : JsVal) : list JsVal :=
  [groupId; js_or senderName (JStr "Anonymous"); message;
   js_or isAnonymous (JBool true)].

(** ** The other routes *)

(** [ORDER BY created_at DESC] on a groups table: rows with equal timestamps
    keep the order in which they are stored. *)
Fixpoint insert_newest_first (g : Group) (l : list Group) : list Group :=
  match l with
  | [] => [g]
  | g' :: l' =>
      if grp_created_at g' <=? grp_created_at g then g :: l
      else g' :: insert_newest_first g l'
  end.

Definition newest_first (l : list Group) : list Group :=
  foldr insert_newest_first [] l.

(** [SELECT * FROM user_groups ORDER BY created_at DESC] *)
Definition select_user_groups (D : Database) : JsError + list Group :=
  match user_groups D with
  | None => inl ER_NO_SUCH_TABLE
  | Some t => inr (newest_first (g_rows t))
  end.

(** [db.execute] of a statement that only reads: the driver's checks as in
    [db_execute], then the query on the database. *)
Definition db_query {A} (ps : list JsVal) (query : Database → JsError + A)
    (w : World) : JsError + A :=
  match db w with
  | db_undefined => inl TypeError_db_undefined
  | db_connection open =>
      if bool_decide (JUndefined ∈ ps) then inl TypeError_bind_undefined
      else if open then query (store w)
      else inl PROTOCOL_CONNECTION_LOST
  end.

(** What [GET /api/groups] answers. *)
Inductive GroupsReply : Type :=
| groups_json (status : Z) (l : list Group)
| groups_error (status : Z) (e : JsError).

(** [app.get('/api/groups')] *)
Definition get_groups (w : World) : GroupsReply :=
  match db_query [] select_user_groups w with
  | inr groups => groups_json 200 groups
  | inl error => groups_error 500 error
  end.

(** The body of [GET /api/test]. *)
Record TestReply : Type := mkTestReply {
  status : string;
  timestamp : string;
  database : string
}.

(** [app.get('/api/test')]; [date] is [new Date().toISOString()]. *)
Definition get_test (date : string) (w : World) : TestReply :=
  mkTestReply "Server is running!" date
    (match db w with
     | db_undefined => "Not connected"
     | db_connection _ => "Connected"
     end).

(** [app.post('/api/groups/:id/messages')] from its first line.  [body] is
    what [express.json()] has left in [req.body]: an object, or a value that
    is none ([undefined] when no JSON body was parsed).  [req.body] is
    destructured before the [try] begins, so what that throws is not
    caught; [post_messages] is the handler from there on. *)
Definition post_request (id : string) (body : JsData) : Prog Reply :=
  o ← properties body; post_messages id o.

(** [post_messages] from its second [await] on, the [INSERT] having
    returned [insertId]. *)
Definition selecting (id : string) (insertId : Z) : Prog Reply :=
  try_catch
    (newMessage ← execute SELECT_messages_WHERE_id [JNum insertId];
     emit (room_of (JStr id)) "new_message" (head (message_rows newMessage));;
     mret (res_json 200 (row_json (head (message_rows newMessage)))))
    (λ error, mret (res_json 500 (error_json error))).

(** ** Notions used by the further results *)

(** The statements on [messages] that the handlers issue. *)
Definition message_statement (q : Sql) : bool :=
  match q with
  | SELECT_messages_WHERE_group_id | INSERT_INTO_messages
  | SELECT_messages_WHERE_id => true
  | _ => false
  end.

(** [p] awaits nothing but those statements. *)
Fixpoint only_message_statements {A} (p : Prog A) : Prop :=
  match p with
  | Ret _ | Throw _ => True
  | Await q ps k => message_statement q = true ∧ ∀ r, only_message_statements (k r)
  | Emit _ _ _ k | Join _ _ k | Leave _ _ k => only_message_statements k
  end.

(** Everything of a database but the rows of [messages] and their counter:
    the tables that exist, the groups, and how [messages] is declared. *)
Definition declaration (t : MessagesTable) : bool * bool :=
  (group_id_not_null t, references_user_groups t).

Definition same_schema (D D' : Database) : Prop :=
  groups D' = groups D ∧ user_groups D' = user_groups D ∧
  users D' = users D ∧ idx_group_id D' = idx_group_id D ∧
  idx_created_at D' = idx_created_at D ∧
  (declaration <$> messages D') = (declaration <$> messages D).

(** [ORDER BY created_at DESC] key of a groups reply. *)
Definition by_created_at_desc (a b : Group) : Prop :=
  grp_created_at b <= grp_created_at a.

(** ** The scripts in closed form

    What [createTables] and [setupDatabase] make of a database when the
    connection is up, as functions on the database; the further results
    prove that the scripts compute these ([createTables_store],
    [setupDatabase_store]) and reason on them. *)

(** [groups.length === 0] fails: some row is named 'Fun Friday Group'. *)
Definition has_default_group (t : GroupsTable) : bool :=
  negb (bool_decide
          (List.length
             (List.filter (where_name (JStr "Fun Friday Group")) (g_rows t))
           = 0%nat)).

(** The default group inserted unless one is there (or the insert fails). *)
Definition with_default_group (now : Z) (t : GroupsTable) : GroupsTable :=
  if has_default_group t then t
  else match insert_into_groups t [JStr "Fun Friday Group"] now with
       | inr (_, t') => t'
       | inl _ => t
       end.

Definition created (now : Z) (D : Database) : Database :=
  let g := default (mkGroupsTable [] 1) (groups D) in
  match messages D, user_groups D with
  | None, None => with_groups D g
  | m, u =>
      mkDatabase (Some g) (with_default_group now <$> u)
        (Some (default (mkMessagesTable false true [] 1) m)) true
        (idx_group_id D) (idx_created_at D)
  end.

(** The bind parameters of one sample message. *)
Definition sample_parameters (msg : string * string) : list JsVal :=
  [JNum 1; JStr msg.1; JStr msg.2; JBool (String.eqb msg.1 "Anonymous")].

(** The loop over the samples: it stops at the first insert that fails. *)
Fixpoint with_samples (now : Z) (D : Database) (t : MessagesTable)
    (msgs : list (string * string)) : MessagesTable :=
  match msgs with
  | [] => t
  | msg :: rest =>
      match insert_into_messages D t (sample_parameters msg) now with
      | inr (_, t') => with_samples now D t' rest
      | inl _ => t
      end
  end.

(** [existingMessages[0].count === 0] guards the loop. *)
Definition with_sample_messages (now : Z) (D : Database) (t : MessagesTable)
  : MessagesTable :=
  if Z.of_nat (List.length (m_rows t)) =? 0
  then with_samples now D t sampleMessages else t.

Definition set_up (now : Z) (D : Database) : Database :=
  let g := default (mkGroupsTable [] 1) (groups D) in
  let t := default (mkMessagesTable true false [] 1) (messages D) in
  let D5 := mkDatabase (Some g) (user_groups D) (Some t) true true true in
  if has_default_group g then
    mkDatabase (Some g) (user_groups D)
      (Some (with_sample_messages now D5 t)) true true true
  else
    match insert_into_groups g [JStr "Fun Friday Group"] now with
    | inl _ => D5
    | inr (_, g') =>
        mkDatabase (Some g') (user_groups D)
          (Some (with_sample_messages now D5 t)) true true true
    end.

(** The sender and text of a stored row, and of a sample. *)
Definition sender_and_text (r : Message) : option string * string :=
  (sender_name r, message r).
Definition sample_sender_and_text (msg : string * string) : option string * string :=
  (Some msg.1, msg.2).

(** The rows of [groups] ([[]] while the table is missing). *)
Definition listed (D : Database) : list Group :=
  match groups D with Some t => g_rows t | None => [] end.

(** ** More concrete states *)

(** The machine before [node server.js]: the database as the setup script
    has left it, [db] not yet assigned. *)
Definition not_started : World :=
  mkWorld db_undefined setup_database 100 (mkAdapter ∅ ∅) [].

(** The world after a POST for group 1 on the started server. *)
Definition after_post : World :=
  (run (post_messages "1" alice_hi) started_world).2.

(** The connection drops after the scenario. *)
Definition after_loss : System :=
  default after_hi (perform lose_connection after_hi).

(** The connection drops between the two awaits of a POST. *)
Definition lost_between : list Action :=
  [arrive (POST_messages "1" alice_hi); resume 0; lose_connection; resume 0].

Definition after_lost_between : System :=
  default started (schedule lost_between started).

(** * Results *)

(** ** Conversions *)

(** A string the store accepts as an integer compares as that integer. *)
Lemma digit_cases (d : N) :
  (d < 10)%N →
  d = 0%N ∨ d = 1%N ∨ d = 2%N ∨ d = 3%N ∨ d = 4%N ∨ d = 5%N ∨ d = 6%N ∨
  d = 7%N ∨ d = 8%N ∨ d = 9%N.
Proof. lia. Qed.

Lemma digit_of_pretty_N_char d :
  (d < 10)%N → digit_of (pretty_N_char d) = Some (Z.of_N d).
Proof.
  intros Hd.
  destruct (digit_cases d Hd)
    as [->|[->|[->|[->|[->|[->|[->|[->|[->| ->]]]]]]]]]; reflexivity.
Qed.

Lemma read_digits_pretty_N_go x :
  ∃ k, 0 <= k ∧ ∀ s acc,
    read_digits acc (pretty_N_go x s) = read_digits (acc * 10 ^ k + Z.of_N x) s.
Proof.
  induction (N.lt_wf_0 x) as [x _ IH].
  destruct (decide (x = 0%N)) as [->|Hx].
  - exists 0. split; [done|]. intros s acc. rewrite pretty_N_go_0. f_equal. lia.
  - destruct (IH (x `div` 10)%N) as (k & Hk & Hread).
    { apply N.div_lt; lia. }
    exists (k + 1). split; [lia|]. intros s acc.
    rewrite pretty_N_go_step by lia. rewrite Hread. simpl.
    rewrite digit_of_pretty_N_char by (apply N.mod_lt; lia).
    f_equal. rewrite Z.pow_add_r by lia.
    pose proof (N.div_mod x 10 ltac:(lia)) as Hdm.
    lia.
Qed.

Lemma pretty_N_go_head x s :
  (0 < x)%N →
  ∃ d rest, (d < 10)%N ∧ pretty_N_go x s = String (pretty_N_char d) rest.
Proof.
  revert s. induction (N.lt_wf_0 x) as [x _ IH]. intros s Hx.
  rewrite pretty_N_go_step by done.
  destruct (decide (x `div` 10 = 0)%N) as [->|Hq].
  - rewrite pretty_N_go_0. eexists _, _. split; [|done]. apply N.mod_lt; lia.
  - apply IH; [apply N.div_lt; lia|by apply N.neq_0_lt_0].
Qed.

(** The decimal text of an integer reads back as that integer, with nothing
    left over. *)
Lemma read_int_pretty (n : Z) : read_int (pretty n) = (true, n, EmptyString).
Proof.
  assert (∀ p, read_int (pretty_N_go (N.pos p) "") = (true, Z.pos p, EmptyString)
               ∧ starts_with_digit (pretty_N_go (N.pos p) "") = true
               ∧ read_digits 0 (pretty_N_go (N.pos p) "") = (Z.pos p, EmptyString))
    as Hpos.
  { intros p.
    destruct (read_digits_pretty_N_go (N.pos p)) as (k & _ & Hread).
    destruct (pretty_N_go_head (N.pos p) "") as (d & rest & Hd & Hs); [lia|].
    specialize (Hread "" 0). simpl in Hread. rewrite Hs in *.
    destruct (digit_cases d Hd)
      as [->|[->|[->|[->|[->|[->|[->|[->|[->| ->]]]]]]]]];
      unfold read_int, starts_with_digit; simpl pretty_N_char in *;
      cbv iota beta; rewrite Hread, Z.mul_0_l, Z.add_0_l; done. }
  destruct n as [|p|p]; [done|apply Hpos|].
  destruct (Hpos p) as (_ & Hs & Hr).
  change (pretty (Z.neg p)) with (String "-" (pretty_N_go (N.pos p) "")).
  unfold read_int. rewrite Hs, Hr. done.
Qed.

(** A row is selected by the decimal text of its own group id. *)
Lemma where_group_id_pretty m g :
  group_id m = Some g → where_group_id (JStr (pretty g)) m = true.
Proof.
  intros Hg. unfold where_group_id, sql_number, numeric_prefix.
  rewrite Hg, read_int_pretty. apply Z.eqb_refl.
Qed.

(** ** The store *)

Section store_facts.
Implicit Types (D : Database) (q : Sql) (ps : list JsVal) (l : list Message).

Lemma insert_by_created_at_perm r l : insert_by_created_at r l ≡ₚ r :: l.
Proof.
  induction l as [|r' l IH]; simpl; [done|].
  destruct (created_at r <=? created_at r'); [done|].
  rewrite IH. apply perm_swap.
Qed.

Lemma order_by_created_at_perm l : order_by_created_at l ≡ₚ l.
Proof.
  induction l as [|r l IH]; simpl; [done|].
  rewrite insert_by_created_at_perm. by f_equiv.
Qed.

Lemma insert_by_created_at_sorted r l :
  StronglySorted by_created_at l →
  StronglySorted by_created_at (insert_by_created_at r l).
Proof.
  induction 1 as [|r' l Hl IH Hr']; simpl.
  { repeat constructor. }
  destruct (Z.leb_spec (created_at r) (created_at r')) as [Hle|Hgt].
  - constructor; [by constructor|].
    constructor; [done|].
    eapply Forall_impl; [exact Hr'|]. unfold by_created_at. intros; lia.
  - constructor; [done|].
    rewrite insert_by_created_at_perm. constructor; [|done].
    unfold by_created_at. lia.
Qed.

Lemma order_by_created_at_sorted l :
  StronglySorted by_created_at (order_by_created_at l).
Proof.
  induction l; simpl; [constructor|]. by apply insert_by_created_at_sorted.
Qed.

(** A list whose timestamps already grow strictly is returned as it is. *)
Lemma order_by_created_at_id l :
  StronglySorted (λ a b, created_at a < created_at b) l →
  order_by_created_at l = l.
Proof.
  induction 1 as [|r l Hl IH Hr]; simpl; [done|].
  rewrite IH. destruct l as [|r' l]; simpl; [done|].
  apply Forall_cons in Hr as [Hr _].
  destruct (Z.leb_spec (created_at r) (created_at r')); [done|lia].
Qed.

Lemma insert_into_messages_inv D t ps now i t' :
  insert_into_messages D t ps now = inr (i, t') →
  ∃ r, i = m_auto_increment t ∧ msg_id r = i ∧ i <= INT_MAX ∧
       created_at r = now ∧
       m_rows t' = m_rows t ++ [r] ∧
       m_auto_increment t' = i + 1 ∧
       group_id_not_null t' = group_id_not_null t ∧
       references_user_groups t' = references_user_groups t.
Proof.
  unfold insert_into_messages.
  destruct ps as [|g [|s [|m [|a [|? ?]]]]]; try done.
  destruct (to_int_column INT_MIN INT_MAX g) as [|gid]; [done|]; simpl.
  destruct (check _ ER_BAD_NULL_ERROR); [done|]; simpl.
  destruct (to_text_column 255 s) as [|sn]; [done|]; simpl.
  destruct (to_text_column 65535 m) as [|[txt|]]; [done| |done]; simpl.
  destruct (to_int_column (-128) 127 a) as [|anon]; [done|]; simpl.
  destruct (check _ ER_NO_REFERENCED_ROW_2); [done|]; simpl.
  destruct (Z.leb_spec (m_auto_increment t) INT_MAX); simpl; [|done].
  intros [= <- <-]; simpl. eexists; split_and!; simpl; eauto; done.
Qed.

(** Case analysis on what a statement did, from [H : execute_sql ... = _]. *)
Ltac statement_cases H :=
  repeat (match type of H with
          | context [match ?x with _ => _ end] => destruct x eqn:?
          end; simplify_eq/=);
  simplify_eq/=;
  unfold stored, ids_ordered in *; simpl in *;
  repeat match goal with E : messages _ = _ |- _ => rewrite E in * |- * end.

(** A statement that fails leaves the database as it was. *)
Lemma execute_sql_error q ps now D e D' :
  execute_sql q ps now D = (inl e, D') → D' = D.
Proof. destruct q; simpl; intros H; statement_cases H; done. Qed.

(** Rows are only ever appended. *)
Lemma stored_append q ps now D r D' :
  execute_sql q ps now D = (r, D') → stored D `prefix_of` stored D'.
Proof.
  destruct q; simpl; intros H; statement_cases H; try done; try apply prefix_nil.
  match goal with H : insert_into_messages _ _ _ _ = _ |- _ =>
    apply insert_into_messages_inv in H as (x & _ & _ & _ & _ & -> & _) end.
  by apply prefix_app_r.
Qed.

(** Rows handed out are rows of the table. *)
Lemma selected_stored q ps now D l D' :
  execute_sql q ps now D = (inr (MessageRows l), D') → l ⊆ stored D'.
Proof.
  destruct q; simpl; intros H; statement_cases H; intros x Hx.
  - rewrite order_by_created_at_perm in Hx.
    apply list_elem_of_In, filter_In in Hx as [? _]. by apply list_elem_of_In.
  - apply list_elem_of_In, filter_In in Hx as [? _]. by apply list_elem_of_In.
Qed.

Lemma ids_ordered_execute q ps now D r D' :
  execute_sql q ps now D = (r, D') → ids_ordered D → ids_ordered D'.
Proof.
  destruct q; simpl; intros H; statement_cases H; try done;
    try (intros _; split; constructor).
  match goal with H : insert_into_messages _ _ _ _ = _ |- _ =>
    apply insert_into_messages_inv in H
      as (x & -> & Hx & _ & _ & -> & -> & _) end.
  intros [Hs Hb]. split.
  - apply StronglySorted_app_2; [|done|repeat constructor].
    intros a b Ha ->%list_elem_of_singleton.
    rewrite Forall_forall in Hb. rewrite Hx. by apply Hb.
  - apply Forall_app. split.
    + eapply Forall_impl; [exact Hb|]. simpl; intros; lia.
    + repeat constructor. lia.
Qed.
End store_facts.

(** ** The driver *)

Section driver_facts.
Implicit Types (w : World) (q : Sql) (ps : list JsVal).

Lemma set_store_same w : set_store w (store w) = w.
Proof. by destruct w. Qed.

(** Case analysis on [H : db_execute q ps w = _]: either the driver or the
    connection refused, or the server ran the statement. *)
Ltac driver_cases H :=
  unfold db_execute in H;
  repeat (match type of H with
          | context [match ?x with _ => _ end] => destruct x eqn:?
          end; simplify_eq/=);
  simplify_eq/=.

Lemma db_execute_error q ps w e w' :
  db_execute q ps w = (inl e, w') → w' = w.
Proof.
  intros H. driver_cases H; try done.
  match goal with H : execute_sql _ _ _ _ = _ |- _ =>
    apply execute_sql_error in H as -> end.
  apply set_store_same.
Qed.

(** [execute] touches the store and nothing else. *)
Lemma db_execute_frame q ps w r w' :
  db_execute q ps w = (r, w') →
  db w' = db w ∧ now w' = now w ∧ adapter w' = adapter w ∧
  outbox w' = outbox w.
Proof. intros H. driver_cases H; done. Qed.

Lemma db_execute_append q ps w r w' :
  db_execute q ps w = (r, w') →
  stored (store w) `prefix_of` stored (store w').
Proof.
  intros H. driver_cases H; try done.
  by eapply stored_append.
Qed.

Lemma db_execute_seen q ps w r w' :
  db_execute q ps w = (r, w') → seen r ⊆ stored (store w').
Proof.
  intros H. destruct r as [e|[]]; simpl; try apply list_subseteq_nil.
  driver_cases H. by eapply selected_stored.
Qed.

Lemma db_execute_ids q ps w r w' :
  db_execute q ps w = (r, w') →
  ids_ordered (store w) → ids_ordered (store w').
Proof.
  intros H. driver_cases H; try done.
  by eapply ids_ordered_execute.
Qed.
End driver_facts.

(** ** Handlers between two awaits *)

Section advance_facts.
Context {A : Type}.
Implicit Types (p t : Prog A) (w : World).

(** The synchronous stretch leaves the store, the connection and the
    clock alone, and only adds to the outbox. *)
Lemma advance_frame p w t w' :
  advance p w = (t, w') →
  store w' = store w ∧ db w' = db w ∧ now w' = now w ∧
  outbox w `prefix_of` outbox w'.
Proof.
  revert w. induction p as [a|e|q ps k _|room ev m k IH|id room k IH|id room k IH];
    intros w H; simpl in H; simplify_eq; try done.
  - apply IH in H as (Hs & Hd & Hn & Ho). split_and!; try done.
    etrans; [|exact Ho]. by apply prefix_app_r.
  - by apply IH in H.
  - by apply IH in H.
Qed.

Lemma emits_seen_mono known known' p :
  known ⊆ known' → emits_seen known p → emits_seen known' p.
Proof.
  revert known known'.
  induction p as [a|e|q ps k IH|room ev m k IH|id room k IH|id room k IH];
    intros known known' Hsub; simpl; try done; eauto.
  - intros H r. eapply IH; [|apply H].
    intros x. rewrite !elem_of_app. intros [?|?]; [by left|right; by apply Hsub].
  - intros [H1 H2]. split; [|by eapply IH]. intros x Hx. apply Hsub. eauto.
Qed.

(** Running a handler to its next await emits known rows only. *)
Lemma advance_emits_seen known p w t w' :
  emits_seen known p →
  advance p w = (t, w') →
  emits_seen known t ∧
  ∀ e x, e ∈ outbox w' → payload e = Some x → e ∈ outbox w ∨ x ∈ known.
Proof.
  revert w. induction p as [a|e|q ps k _|room ev m k IH|id room k IH|id room k IH];
    intros w Hp H; simpl in H; simplify_eq; try (split; [done|by left]).
  - destruct Hp as [Hm Hk]. destruct (IH _ Hk H) as [Ht Ho]. split; [done|].
    intros e x He Hx. destruct (Ho e x He Hx) as [Hin|]; [|by right].
    apply elem_of_app in Hin as [ | ->%list_elem_of_singleton]; [by left|].
    right. by apply Hm.
  - by apply (IH _ Hp) in H.
  - by apply (IH _ Hp) in H.
Qed.
End advance_facts.

(** ** The event loop: emitted rows are stored rows *)

Lemma handler_emits_seen r : emits_seen [] (handler r).
Proof.
  assert (∀ (r1 r0 : ResultSet) x,
            head (message_rows r1) = Some x →
            x ∈ seen (inr r1) ++ seen (inr r0) ++ []) as Hhead.
  { intros [] r0 x Hx; simpl in *; try done.
    apply elem_of_app. left. by apply head_Some_elem_of. }
  destruct r as [id|id body|c g|c g|c [o|[]]]; simpl; try done;
    intros [e|r]; simpl; try done;
    intros [e'|r']; simpl; try done; eauto.
Qed.

Lemma prefix_elem_of {A} (l k : list A) x : l `prefix_of` k → x ∈ l → x ∈ k.
Proof. intros [l' ->] ?. apply elem_of_app. by left. Qed.

Lemma listening_emitted_stored s : listening s → emitted_stored s.
Proof.
  intros (_ & Ho & Hp). split.
  - rewrite Ho. by intros e m ?%elem_of_nil.
  - rewrite Hp. constructor.
Qed.

Lemma perform_emitted_stored a s s' :
  perform a s = Some s' → emitted_stored s → emitted_stored s'.
Proof.
  destruct s as [w ts]. intros H [Hout Hpool]; simpl in *.
  destruct a as [r|i|c|c|t|]; simpl in H.
  - (* a request comes in *)
    destruct (admissible r w); [|done].
    destruct (advance (handler r) w) as [t w'] eqn:Hadv. simplify_eq.
    destruct (advance_frame _ _ _ _ Hadv) as (Hs & _ & _ & _).
    destruct (advance_emits_seen [] _ _ _ _ (handler_emits_seen r) Hadv)
      as [Ht Ho].
    split; simpl; rewrite Hs.
    + intros e m He Hm. destruct (Ho e m He Hm) as [?|[]%elem_of_nil]; eauto.
    + apply Forall_app. split; [done|].
      constructor; [|done]. exists []. split; [apply list_subseteq_nil|done].
  - (* a handler is resumed *)
    destruct (ts !! i) as [[| |q ps k| | |]|] eqn:Hi; try done.
    destruct (db_execute q ps w) as [r w1] eqn:Hdb.
    destruct (advance (k r) w1) as [t w2] eqn:Hadv. simplify_eq.
    destruct (advance_frame _ _ _ _ Hadv) as (Hs & _ & _ & _).
    pose proof (db_execute_append _ _ _ _ _ Hdb) as Happ.
    pose proof (db_execute_seen _ _ _ _ _ Hdb) as Hseen.
    destruct (db_execute_frame _ _ _ _ _ Hdb) as (_ & _ & _ & Hout1).
    destruct (Forall_lookup_1 _ _ _ _ Hpool Hi) as (known & Hknown & Hk).
    assert (seen r ++ known ⊆ stored (store w1)) as Hsub.
    { intros x [?|?]%elem_of_app; [by apply Hseen|].
      eapply prefix_elem_of; [exact Happ|]. by apply Hknown. }
    destruct (advance_emits_seen _ _ _ _ _ (Hk r) Hadv) as [Ht Ho].
    split; simpl; rewrite Hs.
    + intros e m He Hm. destruct (Ho e m He Hm) as [Hold|?]; [|by apply Hsub].
      rewrite Hout1 in Hold. eapply prefix_elem_of; [exact Happ|]. eauto.
    + apply Forall_insert; [|by eexists].
      eapply Forall_impl; [exact Hpool|]. intros p (known' & Hsub' & Hp).
      exists known'. split; [|done].
      intros x Hx. eapply prefix_elem_of; [exact Happ|]. by apply Hsub'.
  - destruct (sids (adapter w) !! c); by simplify_eq.
  - destruct (sids (adapter w) !! c); by simplify_eq.
  - by simplify_eq.
  - destruct (db w) as [|[]]; by simplify_eq.
Qed.

Lemma steps_emitted_stored s s' :
  steps s s' → emitted_stored s → emitted_stored s'.
Proof.
  induction 1 as [|s1 s2 s3 [a Ha] _ IH]; [done|].
  intros. eapply IH, perform_emitted_stored; eauto.
Qed.

(** Rows, once stored, stay stored, whatever happens next. *)
Lemma perform_stored a s s' :
  perform a s = Some s' →
  stored (store (world s)) `prefix_of` stored (store (world s')).
Proof.
  destruct s as [w ts]. intros H; simpl in *.
  destruct a as [r|i|c|c|t|]; simpl in H.
  - destruct (admissible r w); [|done].
    destruct (advance (handler r) w) as [t w'] eqn:Hadv. simplify_eq/=.
    by destruct (advance_frame _ _ _ _ Hadv) as (-> & _).
  - destruct (ts !! i) as [[| |q ps k| | |]|] eqn:Hi; try done.
    destruct (db_execute q ps w) as [r w1] eqn:Hdb.
    destruct (advance (k r) w1) as [t w2] eqn:Hadv. simplify_eq/=.
    destruct (advance_frame _ _ _ _ Hadv) as (-> & _).
    by eapply db_execute_append.
  - destruct (sids (adapter w) !! c); by simplify_eq.
  - destruct (sids (adapter w) !! c); by simplify_eq.
  - by simplify_eq.
  - destruct (db w) as [|[]]; by simplify_eq.
Qed.

Lemma steps_stored s s' :
  steps s s' → stored (store (world s)) `prefix_of` stored (store (world s')).
Proof.
  induction 1 as [|s1 s2 s3 [a Ha] _ IH]; [done|].
  etrans; [by eapply perform_stored|done].
Qed.

Lemma schedule_steps acts s s' : schedule acts s = Some s' → steps s s'.
Proof.
  revert s. induction acts as [|a acts IH]; simpl; intros s H.
  - simplify_eq. constructor.
  - destruct (perform a s) as [s1|] eqn:Ha; [|done].
    econstructor; [by exists a|]. by apply IH.
Qed.

(** ** The handlers, run to completion *)

Section handler_runs.
Implicit Types (w : World) (id : string) (body o : JsObj).

Lemma run_get_messages id w :
  run (get_messages id) w =
    match db_execute SELECT_messages_WHERE_group_id [JStr id] w with
    | (inl e, w') => (inr (res_json 500 (error_json e)), w')
    | (inr r, w') => (inr (res_json 200 (rows_json (message_rows r))), w')
    end.
Proof. simpl. by destruct (db_execute _ _ w) as [[e|r] w']. Qed.

(** With the connection up and the table there, the history query
    answers. *)
Lemma get_messages_ok id w t :
  db w = db_connection true → messages (store w) = Some t →
  run (get_messages id) w =
    (inr (res_json 200 (rows_json
            (order_by_created_at
               (List.filter (where_group_id (JStr id)) (m_rows t))))), w).
Proof.
  intros Hdb Ht. rewrite run_get_messages. unfold db_execute. rewrite Hdb.
  rewrite bool_decide_eq_false_2 by (by intros [=]%list_elem_of_singleton).
  simpl. rewrite Ht. simpl. by rewrite set_store_same.
Qed.

Lemma run_post_messages_failed id body w e w' :
  db_execute INSERT_INTO_messages
    (submitted (JStr id) (field body "sender_name") (field body "message")
               (field body "is_anonymous")) w = (inl e, w') →
  run (post_messages id body) w = (inr (res_json 500 (error_json e)), w).
Proof.
  intros H. pose proof (db_execute_error _ _ _ _ _ H) as ->.
  unfold submitted in H. simpl. by rewrite H.
Qed.

Lemma run_on_send_message_failed o w e w' :
  db_execute INSERT_INTO_messages
    (submitted (field o "groupId") (field o "senderName") (field o "message")
               (field o "isAnonymous")) w = (inl e, w') →
  run (on_send_message (data_object o)) w = (inr no_reply, w).
Proof.
  intros H. pose proof (db_execute_error _ _ _ _ _ H) as ->.
  unfold submitted in H. simpl. by rewrite H.
Qed.
End handler_runs.

(** ** Durability before visibility *)

(** C1.  On both ingress paths a failed insert ends the handler with the
    world as it was, hence without any emit.  In every run of the server, a
    message that some subscriber was sent is a row of the store at that
    moment and at every later one.  From then on a history request whose id
    selects the group of that row (the decimal text of the row's group id
    always does) answers with a list containing the row, whenever the
    connection is up. *)
Theorem durability_before_visibility :
  (∀ w id body e w',
     db_execute INSERT_INTO_messages
       (submitted (JStr id) (field body "sender_name") (field body "message")
                  (field body "is_anonymous")) w = (inl e, w') →
     run (post_messages id body) w = (inr (res_json 500 (error_json e)), w)) ∧
  (∀ w o e w',
     db_execute INSERT_INTO_messages
       (submitted (field o "groupId") (field o "senderName")
                  (field o "message") (field o "isAnonymous")) w = (inl e, w') →
     run (on_send_message (data_object o)) w = (inr no_reply, w)) ∧
  (∀ s s' s'' e c m,
     listening s → steps s s' → steps s' s'' →
     e ∈ outbox (world s') → c ∈ recipients e → payload e = Some m →
     m ∈ stored (store (world s')) ∧
     m ∈ stored (store (world s'')) ∧
     (∀ g, group_id m = Some g → where_group_id (JStr (pretty g)) m = true) ∧
     ∀ id, where_group_id (JStr id) m = true →
           db (world s'') = db_connection true →
           ∃ l, run (get_messages id) (world s'') =
                  (inr (res_json 200 (rows_json l)), world s'') ∧ m ∈ l).
Proof.
  split_and!.
  - intros. by eapply run_post_messages_failed.
  - intros. by eapply run_on_send_message_failed.
  - intros s s' s'' e c m Hs Hss' Hss'' He _ Hm.
    apply listening_emitted_stored in Hs.
    destruct (steps_emitted_stored _ _ Hss' Hs) as [Hout _].
    pose proof (Hout e m He Hm) as Hin.
    pose proof (prefix_elem_of _ _ _ (steps_stored _ _ Hss'') Hin) as Hin'.
    split_and!; [done..|apply where_group_id_pretty|]. intros id Hid Hdb.
    unfold stored in Hin'.
    destruct (messages (store (world s''))) as [t|] eqn:Ht;
      [|by apply elem_of_nil in Hin'].
    eexists. split; [by apply get_messages_ok|].
    rewrite order_by_created_at_perm.
    apply list_elem_of_In, filter_In. split; [by apply list_elem_of_In|done].
Qed.

(** ** Rooms *)

Section adapter_facts.
Implicit Types (a : Adapter) (c room : string)
               (rs : gmap string (gset string)).

Lemma subscribersOf_addAll c room a room' :
  subscribersOf room' (addAll c room a) =
    if decide (room = room') then {[c]} ∪ subscribersOf room a
    else subscribersOf room' a.
Proof.
  unfold subscribersOf, addAll; simpl. case_decide as Hr.
  - subst. by rewrite lookup_insert_eq.
  - by rewrite lookup_insert_ne.
Qed.

Lemma rooms_of_addAll c room a c' :
  rooms_of c' (addAll c room a) =
    if decide (c = c') then {[room]} ∪ rooms_of c a else rooms_of c' a.
Proof.
  unfold rooms_of, addAll; simpl. case_decide as Hc.
  - subst. by rewrite lookup_insert_eq.
  - by rewrite lookup_insert_ne.
Qed.

Lemma lookup_del_room c room rs room' :
  default ∅ (del_room c room rs !! room') =
    if decide (room = room') then default ∅ (rs !! room) ∖ {[c]}
    else default ∅ (rs !! room').
Proof.
  unfold del_room. destruct (rs !! room) as [s|] eqn:Hs; simpl.
  - destruct (decide (s ∖ {[c]} = ∅)) as [He|He]; case_decide as Hr; subst.
    + by rewrite lookup_delete_eq, He.
    + by rewrite lookup_delete_ne.
    + by rewrite lookup_insert_eq.
    + by rewrite lookup_insert_ne.
  - case_decide; subst; [|done]. rewrite Hs; simpl.
    by rewrite difference_disjoint_L.
Qed.

Lemma subscribersOf_del c room a room' :
  subscribersOf room' (del c room a) =
    if decide (room = room') then subscribersOf room a ∖ {[c]}
    else subscribersOf room' a.
Proof. apply lookup_del_room. Qed.

Lemma rooms_of_del c room a c' :
  rooms_of c' (del c room a) =
    if decide (c = c') then rooms_of c a ∖ {[room]} else rooms_of c' a.
Proof.
  unfold rooms_of, del; simpl.
  destruct (decide (c = c')) as [<-|Hc].
  - destruct (sids a !! c) as [s|] eqn:Hs.
    + by rewrite lookup_insert_eq.
    + rewrite Hs; simpl. by rewrite difference_disjoint_L.
  - destruct (sids a !! c) as [s|] eqn:Hs; [|done].
    by rewrite lookup_insert_ne.
Qed.

(** What the loop of [delAll] leaves of a room. *)
Lemma lookup_del_rooms c rs (X : gset string) room :
  default ∅ (set_fold (del_room c) rs X !! room) =
    if decide (room ∈ X) then default ∅ (rs !! room) ∖ {[c]}
    else default ∅ (rs !! room).
Proof.
  revert X room.
  apply (set_fold_ind_L
           (λ rs' (X : gset string), ∀ room,
              default ∅ (rs' !! room) =
                if decide (room ∈ X) then default ∅ (rs !! room) ∖ {[c]}
                else default ∅ (rs !! room))).
  - intros room. by rewrite decide_False by set_solver.
  - intros x Y rs' Hx IH room. rewrite lookup_del_room.
    destruct (decide (x = room)) as [->|Hne].
    + rewrite IH. rewrite (decide_False _ _ Hx).
      by rewrite decide_True by set_solver.
    + rewrite IH. destruct (decide (room ∈ Y)).
      * by rewrite decide_True by set_solver.
      * by rewrite decide_False by set_solver.
Qed.

Lemma subscribersOf_delAll c a room :
  consistent a → subscribersOf room (delAll c a) = subscribersOf room a ∖ {[c]}.
Proof.
  intros Hc. unfold delAll.
  destruct (sids a !! c) as [s|] eqn:Hs.
  - unfold subscribersOf; simpl. rewrite lookup_del_rooms.
    case_decide as Hr; [done|].
    apply eq_sym, difference_disjoint_L, disjoint_singleton_r.
    intros Hin. apply Hr. apply Hc in Hin. unfold rooms_of in Hin.
    by rewrite Hs in Hin.
  - apply eq_sym, difference_disjoint_L, disjoint_singleton_r.
    intros Hin. apply Hc in Hin. unfold rooms_of in Hin.
    rewrite Hs in Hin. by apply not_elem_of_empty in Hin.
Qed.

Lemma rooms_of_delAll c a c' :
  rooms_of c' (delAll c a) = if decide (c = c') then ∅ else rooms_of c' a.
Proof.
  unfold delAll, rooms_of.
  destruct (sids a !! c) as [s|] eqn:Hs; simpl; case_decide as Hcc; subst.
  - by rewrite lookup_delete_eq.
  - by rewrite lookup_delete_ne.
  - by rewrite Hs.
  - done.
Qed.

Lemma consistent_empty : consistent (mkAdapter ∅ ∅).
Proof. intros c room. unfold subscribersOf, rooms_of; simpl. set_solver. Qed.

Lemma consistent_addAll c room a : consistent a → consistent (addAll c room a).
Proof.
  intros Ha c' room'. rewrite subscribersOf_addAll, rooms_of_addAll.
  specialize (Ha c' room'). repeat case_decide; subst; set_solver.
Qed.

Lemma consistent_del c room a : consistent a → consistent (del c room a).
Proof.
  intros Ha c' room'. rewrite subscribersOf_del, rooms_of_del.
  specialize (Ha c' room'). repeat case_decide; subst; set_solver.
Qed.

Lemma consistent_delAll c a : consistent a → consistent (delAll c a).
Proof.
  intros Ha c' room'. rewrite subscribersOf_delAll, rooms_of_delAll by done.
  specialize (Ha c' room'). case_decide; subst; set_solver.
Qed.

Lemma addAll_idemp c room a : addAll c room (addAll c room a) = addAll c room a.
Proof.
  unfold addAll; simpl. rewrite !lookup_insert_eq, !insert_insert_eq; simpl.
  f_equal; f_equal; set_solver.
Qed.

Lemma del_room_idemp c room rs :
  del_room c room (del_room c room rs) = del_room c room rs.
Proof.
  unfold del_room at 2 3. destruct (rs !! room) as [s|] eqn:Hs.
  - destruct (decide (s ∖ {[c]} = ∅)) as [He|He]; unfold del_room.
    + by rewrite lookup_delete_eq.
    + rewrite lookup_insert_eq.
      rewrite decide_False by set_solver.
      rewrite insert_insert_eq. f_equal. set_solver.
  - unfold del_room. by rewrite Hs.
Qed.

Lemma del_idemp c room a : del c room (del c room a) = del c room a.
Proof.
  unfold del; simpl. rewrite del_room_idemp. f_equal.
  destruct (sids a !! c) as [s|] eqn:Hs.
  - rewrite lookup_insert_eq, insert_insert_eq. f_equal. set_solver.
  - by rewrite Hs.
Qed.
End adapter_facts.

(** The event loop keeps the adapter consistent. *)
Lemma advance_consistent {A} (p : Prog A) w t w' :
  advance p w = (t, w') → consistent (adapter w) → consistent (adapter w').
Proof.
  revert w. induction p as [a|e|q ps k _|room ev m k IH|id room k IH|id room k IH];
    intros w H Hc; simpl in H; simplify_eq; try done.
  - by apply IH in H.
  - apply IH in H; [done|]. by apply consistent_addAll.
  - apply IH in H; [done|]. by apply consistent_del.
Qed.

Lemma perform_consistent a s s' :
  perform a s = Some s' →
  consistent (adapter (world s)) → consistent (adapter (world s')).
Proof.
  destruct s as [w ts]. intros H Hc; simpl in *.
  destruct a as [r|i|c|c|t|]; simpl in H.
  - destruct (admissible r w); [|done].
    destruct (advance (handler r) w) as [t w'] eqn:Hadv. simplify_eq/=.
    by eapply advance_consistent.
  - destruct (ts !! i) as [[| |q ps k| | |]|] eqn:Hi; try done.
    destruct (db_execute q ps w) as [r w1] eqn:Hdb.
    destruct (advance (k r) w1) as [t w2] eqn:Hadv. simplify_eq/=.
    eapply advance_consistent; [done|].
    destruct (db_execute_frame _ _ _ _ _ Hdb) as (_ & _ & -> & _). done.
  - destruct (sids (adapter w) !! c); simplify_eq/=.
    by apply consistent_addAll.
  - destruct (sids (adapter w) !! c); simplify_eq/=.
    by apply consistent_delAll.
  - by simplify_eq.
  - destruct (db w) as [|[]]; by simplify_eq.
Qed.

Lemma steps_consistent s s' :
  steps s s' →
  consistent (adapter (world s)) → consistent (adapter (world s')).
Proof.
  induction 1 as [|s1 s2 s3 [a Ha] _ IH]; [done|].
  intros. eapply IH, perform_consistent; eauto.
Qed.

(** ** Idempotent join and leave *)

(** C8.  Handling [join_group] a second time for the same socket and group
    changes nothing: the world, and so the subscriber set of every room, is
    what it was after the first time.  The same holds for [leave_group]. *)
Theorem join_leave_idempotent (w : World) (c : string) (g : JsVal) :
  let joined := (run (on_join_group c g) w).2 in
  let left := (run (on_leave_group c g) w).2 in
  (run (on_join_group c g) joined).2 = joined ∧
  subscribersOf (room_of g) (adapter (run (on_join_group c g) joined).2) =
    subscribersOf (room_of g) (adapter joined) ∧
  (run (on_leave_group c g) left).2 = left ∧
  subscribersOf (room_of g) (adapter (run (on_leave_group c g) left).2) =
    subscribersOf (room_of g) (adapter left).
Proof.
  simpl. unfold perform_join, perform_leave, set_adapter; simpl.
  rewrite addAll_idemp, del_idemp. done.
Qed.

(** ** Disconnect *)

(** C9.  In every run of the server, once a socket's transport has closed
    the socket is a subscriber of no room, whatever it had joined; nothing
    but the close itself is needed for that. *)
Theorem disconnect_cleans_memberships s s' s'' c :
  listening s → steps s s' → perform (close_socket c) s' = Some s'' →
  ∀ room, c ∉ subscribersOf room (adapter (world s'')).
Proof.
  intros (Ha & _ & _) Hsteps Hclose room.
  assert (consistent (adapter (world s'))) as Hc.
  { eapply steps_consistent; [done|]. rewrite Ha. apply consistent_empty. }
  simpl in Hclose.
  destruct (sids (adapter (world s')) !! c); simplify_eq/=.
  rewrite subscribersOf_delAll by done. set_solver.
Qed.

(** ** Ids and commit order *)

Lemma sorted_lookup_lt {A} (R : relation A) (l : list A) i j x y :
  StronglySorted R l → l !! i = Some x → l !! j = Some y → (i < j)%nat → R x y.
Proof.
  intros Hs Hi Hj Hlt. rewrite <-(take_drop j l) in Hs.
  eapply StronglySorted_app_1_elem_of; [exact Hs| |].
  - eapply list_elem_of_lookup_2. by rewrite lookup_take_lt.
  - eapply list_elem_of_lookup_2 with (i := 0%nat).
    by rewrite lookup_drop, Nat.add_0_r.
Qed.

Lemma perform_ids_ordered a s s' :
  perform a s = Some s' →
  ids_ordered (store (world s)) → ids_ordered (store (world s')).
Proof.
  destruct s as [w ts]. intros H Hc; simpl in *.
  destruct a as [r|i|c|c|t|]; simpl in H.
  - destruct (admissible r w); [|done].
    destruct (advance (handler r) w) as [t w'] eqn:Hadv. simplify_eq/=.
    by destruct (advance_frame _ _ _ _ Hadv) as (-> & _).
  - destruct (ts !! i) as [[| |q ps k| | |]|] eqn:Hi; try done.
    destruct (db_execute q ps w) as [r w1] eqn:Hdb.
    destruct (advance (k r) w1) as [t w2] eqn:Hadv. simplify_eq/=.
    destruct (advance_frame _ _ _ _ Hadv) as (-> & _).
    by eapply db_execute_ids.
  - destruct (sids (adapter w) !! c); by simplify_eq.
  - destruct (sids (adapter w) !! c); by simplify_eq.
  - by simplify_eq.
  - destruct (db w) as [|[]]; by simplify_eq.
Qed.

Lemma steps_ids_ordered s s' :
  steps s s' → ids_ordered (store (world s)) → ids_ordered (store (world s')).
Proof.
  induction 1 as [|s1 s2 s3 [a Ha] _ IH]; [done|].
  intros. eapply IH, perform_ids_ordered; eauto.
Qed.

(** Whatever program runs to completion, a script included, the ids stay
    ordered; they are so in a database without a [messages] table. *)
Lemma run_ids_ordered {A} (p : Prog A) w :
  ids_ordered (store w) → ids_ordered (store (run p w).2).
Proof.
  revert w. induction p as [a|e|q ps k IH|room ev m k IH|id room k IH|id room k IH];
    intros w Hw; simpl; eauto.
  destruct (db_execute q ps w) as [r w1] eqn:Hdb.
  apply IH. by eapply db_execute_ids.
Qed.

Lemma setup_database_ids_ordered : ids_ordered setup_database.
Proof.
  apply (run_ids_ordered setupDatabase
           (mkWorld (db_connection true) empty_database 100 (mkAdapter ∅ ∅) [])).
  exact I.
Qed.

(** C7.  Starting from a table whose ids grow along the storage order, every
    run of the server, with handlers interleaved in any way, only appends
    rows, and in the table it reaches one row has the smaller id exactly when
    it was stored first; in particular no two rows share an id. *)
Theorem ids_follow_commit_order s s' :
  ids_ordered (store (world s)) → steps s s' →
  stored (store (world s)) `prefix_of` stored (store (world s')) ∧
  ∀ i j m1 m2,
    stored (store (world s')) !! i = Some m1 →
    stored (store (world s')) !! j = Some m2 →
    (msg_id m1 < msg_id m2 ↔ (i < j)%nat).
Proof.
  intros Hids Hsteps. split; [by apply steps_stored|].
  apply (steps_ids_ordered _ _ Hsteps) in Hids.
  unfold ids_ordered, stored in *.
  destruct (messages (store (world s'))) as [t|]; [|by intros [] ? ? ? ?].
  destruct Hids as [Hs _]. intros i j m1 m2 Hi Hj. split.
  - intros Hlt. destruct (Nat.lt_trichotomy i j) as [?|[->|Hgt]]; [done| |].
    + simplify_eq. lia.
    + pose proof (sorted_lookup_lt _ _ _ _ _ _ Hs Hj Hi Hgt). simpl in *. lia.
  - by apply (sorted_lookup_lt _ _ _ _ _ _ Hs Hi Hj).
Qed.

(** ** History of a group that does not exist *)



(** ** The two ingress paths *)

Lemma same_effects_run {A B} (p : Prog A) (p' : Prog B) w :
  same_effects p p' → (run p w).2 = (run p' w).2.
Proof.
  intros H. revert w.
  induction H as [a b|e|q ps k k' _ IH|room ev m k k' _ IH
                 |id room k k' _ IH|id room k k' _ IH]; intros w; simpl; eauto.
  destruct (db_execute q ps w) as [r w1]. apply IH.
Qed.

(** The store treats a number and its decimal text alike as a group id. *)
Lemma db_execute_insert_number_as_text n s m a w :
  db_execute INSERT_INTO_messages (submitted (JNum n) s m a) w =
  db_execute INSERT_INTO_messages (submitted (JStr (pretty n)) s m a) w.
Proof.
  unfold db_execute, submitted.
  destruct (db w) as [|open]; [done|].
  replace (bool_decide (JUndefined ∈ JStr (pretty n) :: _))
    with (bool_decide (JUndefined ∈
            [JNum n; js_or s (JStr "Anonymous"); m; js_or a (JBool true)])).
  2:{ apply bool_decide_ext. rewrite !elem_of_cons. naive_solver. }
  destruct (bool_decide _); [done|]. destruct open; [|done].
  simpl. destruct (messages (store w)) as [t|]; [|done].
  unfold insert_into_messages, int_of_string.
  by rewrite read_int_pretty.
Qed.

(** C5.  Given the same group id (as the same string, or as a number on the
    socket and its decimal text in the URL), text, sender name and anonymity
    flag, the POST handler and the [send_message] handler leave the same
    world when run from the same world: the same row is committed or none,
    and the same emit is made to the same room or none.  For the same string
    the two bodies are the same tree of effects: the same [INSERT] with the
    same parameters, the same [SELECT], the same emit.  The POST handler in
    addition answers its caller: with the row it emitted, or with status 500
    when nothing was emitted. *)
Theorem ingress_paths_agree (w : World) (id : string) (body o : JsObj) :
  field o "groupId" = JStr id ∨
    (∃ n, field o "groupId" = JNum n ∧ id = pretty n) →
  field o "message" = field body "message" →
  field o "senderName" = field body "sender_name" →
  field o "isAnonymous" = field body "is_anonymous" →
  (field o "groupId" = JStr id →
   same_effects (post_messages id body) (on_send_message (data_object o))) ∧
  (run (post_messages id body) w).2 =
    (run (on_send_message (data_object o)) w).2 ∧
  (run (on_send_message (data_object o)) w).1 = inr no_reply ∧
  ((∃ m, (run (post_messages id body) w).1 = inr (res_json 200 (row_json m)) ∧
         outbox (run (post_messages id body) w).2 =
           outbox w ++ [mkEmission (room_of (JStr id)) "new_message" m
                          (subscribersOf (room_of (JStr id)) (adapter w))]) ∨
   (∃ e, (run (post_messages id body) w).1 = inr (res_json 500 (error_json e)) ∧
         outbox (run (post_messages id body) w).2 = outbox w)).
Proof.
  intros Hg Hm Hs Ha. split_and!.
  - intros Hid. unfold post_messages, on_send_message; simpl.
    rewrite Hid, Hm, Hs, Ha.
    constructor. intros [e|r]; simpl; [constructor|].
    constructor. intros [e'|r']; simpl; repeat constructor.
  - destruct Hg as [Hid|(n & Hn & ->)].
    + apply same_effects_run.
      unfold post_messages, on_send_message; simpl. rewrite Hid, Hm, Hs, Ha.
      constructor. intros [e|r]; simpl; [constructor|].
      constructor. intros [e'|r']; simpl; repeat constructor.
    + unfold post_messages, on_send_message; simpl. rewrite Hn, Hm, Hs, Ha.
      pose proof (db_execute_insert_number_as_text n
                    (field body "sender_name") (field body "message")
                    (field body "is_anonymous") w) as Hsame.
      unfold submitted in Hsame. rewrite Hsame. clear Hsame.
      change (room_of (JNum n)) with (room_of (JStr (pretty n))).
      destruct (db_execute _ _ w) as [[e|r] w1]; simpl; [done|].
      by destruct (db_execute _ _ w1) as [[e'|r'] w2].
  - unfold on_send_message; simpl.
    destruct (db_execute _ _ w) as [[e|r] w1]; simpl; [done|].
    by destruct (db_execute _ _ w1) as [[e'|r'] w2].
  - unfold post_messages; simpl.
    destruct (db_execute _ _ w) as [[e|r] w1] eqn:H1; simpl.
    { right. exists e. split; [done|].
      by destruct (db_execute_frame _ _ _ _ _ H1) as (_ & _ & _ & ->). }
    destruct (db_execute_frame _ _ _ _ _ H1) as (_ & _ & Had1 & Hout1).
    destruct (db_execute _ _ w1) as [[e'|r'] w2] eqn:H2; simpl;
      destruct (db_execute_frame _ _ _ _ _ H2) as (_ & _ & Had2 & Hout2).
    + right. exists e'. split; [done|]. congruence.
    + left. eexists. split; [done|]. unfold emit_to; simpl. congruence.
Qed.

(** ** Validation *)

(** C2, as stated, fails: a POST whose text is the empty string is stored
    and sent to the room like any other. *)
Lemma empty_text_is_stored_and_sent :
  (run (post_messages "1" empty_text) started_world).1 =
    inr (res_json 200 (row_json (Some empty_text_row))) ∧
  stored (store (run (post_messages "1" empty_text) started_world).2) =
    stored (store started_world) ++ [empty_text_row] ∧
  outbox (run (post_messages "1" empty_text) started_world).2 =
    [mkEmission "group_1" "new_message" (Some empty_text_row) ∅].
Proof. by vm_compute. Qed.

Lemma undefined_parameter_refused q ps w :
  JUndefined ∈ ps →
  db_execute q ps w = (inl TypeError_db_undefined, w) ∨
  db_execute q ps w = (inl TypeError_bind_undefined, w).
Proof.
  intros Hin. unfold db_execute. destruct (db w); [by left|right].
  by rewrite bool_decide_eq_true_2.
Qed.

(** C2, amended.  Neither handler validates.  What is refused is an absent
    field: when the text is [undefined], or on the socket path the group id
    is, the driver throws on the bind parameters before any statement is
    sent.  The world is left as it was (no row, no emit); the POST handler
    answers 500 and the socket handler answers nothing. *)
Theorem absent_fields_refused_by_driver (w : World) :
  (∀ id body,
     field body "message" = JUndefined →
     ∃ e, (e = TypeError_db_undefined ∨ e = TypeError_bind_undefined) ∧
          run (post_messages id body) w =
            (inr (res_json 500 (error_json e)), w)) ∧
  (∀ o,
     field o "message" = JUndefined ∨ field o "groupId" = JUndefined →
     run (on_send_message (data_object o)) w = (inr no_reply, w)).
Proof.
  split.
  - intros id body Hm.
    destruct (undefined_parameter_refused INSERT_INTO_messages
                (submitted (JStr id) (field body "sender_name")
                   (field body "message") (field body "is_anonymous")) w)
      as [H|H].
    { unfold submitted. rewrite Hm. set_solver. }
    + eexists. split; [by left|]. by eapply run_post_messages_failed.
    + eexists. split; [by right|]. by eapply run_post_messages_failed.
  - intros o Ho.
    destruct (undefined_parameter_refused INSERT_INTO_messages
                (submitted (field o "groupId") (field o "senderName")
                   (field o "message") (field o "isAnonymous")) w)
      as [H|H].
    { unfold submitted. destruct Ho as [-> | ->]; set_solver. }
    + by eapply run_on_send_message_failed.
    + by eapply run_on_send_message_failed.
Qed.

(** ** Unknown groups *)

(** C3, on the code: on the database made by [setup-database.js], a POST
    for group 999, which is in no groups table, answers 200, stores the row
    and emits it to room [group_999]. *)
Theorem unknown_group_is_stored :
  group_exists (store started_world) 999 = false ∧
  (run (post_messages "999" [("message", JStr "hi")]) started_world).1 =
    inr (res_json 200 (row_json (Some stray_row))) ∧
  stored (store (run (post_messages "999" [("message", JStr "hi")])
                     started_world).2) =
    stored (store started_world) ++ [stray_row] ∧
  outbox (run (post_messages "999" [("message", JStr "hi")]) started_world).2 =
    [mkEmission "group_999" "new_message" (Some stray_row) ∅].
Proof. by vm_compute. Qed.

(** The foreign key that [server.js] declares does refuse such a row, on a
    database where that [CREATE TABLE] could run. *)
Lemma declared_foreign_key_refuses_unknown_group :
  run (post_messages "999" [("message", JStr "hi")]) server_made_world =
    (inr (res_json 500 (error_json ER_NO_REFERENCED_ROW_2)), server_made_world).
Proof. by vm_compute. Qed.

(** Started on an empty database, the server creates no [messages] table at
    all: its [CREATE TABLE] references [user_groups], which nothing
    creates. *)
Lemma server_alone_creates_no_messages_table :
  messages (store (initDB true (mkWorld db_undefined empty_database 100
                                        (mkAdapter ∅ ∅) []))) = None.
Proof. by vm_compute. Qed.

(** ** Stored fields *)

(** C4, on the code: [is_anonymous || true] is [true] for either boolean,
    so a POST with [is_anonymous: false] commits a row whose flag is 1; text
    and sender name are stored as submitted. *)
Theorem anonymity_flag_overwritten :
  (∀ b, js_or (JBool b) (JBool true) = JBool true) ∧
  (run (post_messages "1" alice_hi) started_world).1 =
    inr (res_json 200 (row_json (Some hi_row))) ∧
  message hi_row = "hi"%string ∧ sender_name hi_row = Some "Alice"%string ∧
  is_anonymous hi_row = Some 1.
Proof. split; [by intros []|by vm_compute]. Qed.

(** ** Order of the history *)

(** C6, as stated, fails: with the clock set back by a second between two
    POSTs, the history lists id 8 before id 7. *)
Lemma history_not_in_id_order :
  schedule clock_set_back started = Some after_clock_set_back ∧
  history_ids (run (get_messages "1") (world after_clock_set_back)).1 =
    [1; 2; 3; 4; 5; 6; 8; 7] ∧
  ¬ StronglySorted Z.lt
      (history_ids (run (get_messages "1") (world after_clock_set_back)).1).
Proof.
  split_and!; [by vm_compute..|].
  replace (history_ids _) with [1; 2; 3; 4; 5; 6; 8; 7] by (by vm_compute).
  intros H. repeat (apply StronglySorted_inv in H as [H ?]).
  repeat match goal with H : Forall _ _ |- _ => apply Forall_cons in H as [? H] end.
  lia.
Qed.

Lemma StronglySorted_filter {A} (R : relation A) (P : A → bool) (l : list A) :
  StronglySorted R l → StronglySorted R (List.filter P l).
Proof.
  induction 1 as [|x l Hl IH Hx]; simpl; [constructor|].
  destruct (P x); [|done]. constructor; [done|].
  apply Forall_forall. intros y [Hy _]%list_elem_of_In%filter_In.
  rewrite Forall_forall in Hx. by apply Hx, list_elem_of_In.
Qed.

(** C6, amended.  A successful history reply holds exactly the rows selected
    by the group id, in ascending order of [created_at]: the timestamp is
    the order key.  When, among those rows, a later stored row always has a
    strictly later timestamp, the reply is the rows in storage order, which
    is ascending id order. *)
Theorem history_ordered_by_created_at (w : World) (id : string) (l : list Message) :
  (run (get_messages id) w).1 = inr (res_json 200 (rows_json l)) →
  StronglySorted by_created_at l ∧
  l ≡ₚ List.filter (where_group_id (JStr id)) (stored (store w)) ∧
  (ids_ordered (store w) →
   StronglySorted (λ a b, created_at a < created_at b)
     (List.filter (where_group_id (JStr id)) (stored (store w))) →
   l = List.filter (where_group_id (JStr id)) (stored (store w)) ∧
   StronglySorted by_id l).
Proof.
  rewrite run_get_messages. unfold db_execute, stored, ids_ordered.
  rewrite bool_decide_eq_false_2 by (by intros [=]%list_elem_of_singleton).
  destruct (db w) as [|[]]; simpl; try done.
  destruct (messages (store w)) as [t|]; simpl; [|done].
  intros [= <-]. split_and!.
  - apply order_by_created_at_sorted.
  - apply order_by_created_at_perm.
  - intros [Hids _] Hts. rewrite order_by_created_at_id by done.
    split; [done|]. by apply StronglySorted_filter.
Qed.

(** ** The results at concrete inputs *)

Lemma durability_before_visibility_witness :
  schedule hi_schedule started = Some after_hi ∧
  schedule bye_schedule after_hi = Some after_bye ∧
  hi_row ∈ stored (store (world after_hi)) ∧
  hi_row ∈ stored (store (world after_bye)) ∧
  hi_row ∈ history_rows (run (get_messages "1") (world after_bye)).1 ∧
  run (post_messages "1" []) started_world =
    (inr (res_json 500 (error_json TypeError_bind_undefined)), started_world) ∧
  run (on_send_message (data_object [])) started_world =
    (inr no_reply, started_world).
Proof.
  destruct durability_before_visibility as (Hpost & Hsock & Hrun).
  assert (schedule hi_schedule started = Some after_hi) as H1
    by (vm_compute; reflexivity).
  assert (schedule bye_schedule after_hi = Some after_bye) as H2
    by (vm_compute; reflexivity).
  destruct (Hrun started after_hi after_bye
              (mkEmission "group_1" "new_message" (Some hi_row) {["A"; "B"]})
              "A" hi_row) as (Ha & Hb & _ & Hc).
  - split_and!; vm_compute; reflexivity.
  - exact (schedule_steps _ _ _ H1).
  - exact (schedule_steps _ _ _ H2).
  - replace (outbox (world after_hi))
      with [mkEmission "group_1" "new_message" (Some hi_row) {["A"; "B"]}]
      by (vm_compute; reflexivity).
    constructor.
  - vm_compute; reflexivity.
  - reflexivity.
  - destruct (Hc "1") as (l & Hl & Hin); [reflexivity..|].
    split_and!; [done..| | |].
    + rewrite Hl. exact Hin.
    + eapply Hpost. vm_compute; reflexivity.
    + eapply Hsock. vm_compute; reflexivity.
Defined.

Lemma absent_fields_refused_by_driver_witness :
  run (post_messages "1" []) started_world =
    (inr (res_json 500 (error_json TypeError_bind_undefined)), started_world) ∧
  run (on_send_message (data_object [("message", JStr "hi")])) started_world =
    (inr no_reply, started_world).
Proof.
  destruct (absent_fields_refused_by_driver started_world) as [Hpost Hsock].
  split.
  - destruct (Hpost "1" []) as (e & [-> | ->] & He); [reflexivity| |exact He].
    vm_compute in He. discriminate He.
  - apply Hsock. right. reflexivity.
Defined.

Lemma ingress_paths_agree_witness :
  same_effects (post_messages "1" alice_hi)
               (on_send_message (data_object alice_hi_event)) ∧
  (run (post_messages "1" alice_hi) started_world).2 =
    (run (on_send_message (data_object alice_hi_event)) started_world).2 ∧
  (run (post_messages "1" alice_hi) started_world).2 =
    (run (on_send_message (data_object alice_hi_numeric_event)) started_world).2.
Proof.
  destruct (ingress_paths_agree started_world "1" alice_hi alice_hi_event)
    as (Hsame & Hworld & _); [left; reflexivity|reflexivity..|].
  destruct (ingress_paths_agree started_world "1" alice_hi
              alice_hi_numeric_event)
    as (_ & Hworld' & _);
    [right; exists 1; split; reflexivity|reflexivity..|].
  split_and!; [apply Hsame; reflexivity|exact Hworld|exact Hworld'].
Defined.

Lemma history_ordered_by_created_at_witness :
  StronglySorted by_created_at
    (history_rows (run (get_messages "1") (world after_ticks)).1) ∧
  StronglySorted by_id
    (history_rows (run (get_messages "1") (world after_ticks)).1).
Proof.
  destruct (history_ordered_by_created_at (world after_ticks) "1"
              (history_rows (run (get_messages "1") (world after_ticks)).1))
    as (Hts & _ & Hid).
  - vm_compute; reflexivity.
  - split; [exact Hts|]. apply Hid.
    + vm_compute. split; repeat constructor.
    + vm_compute. repeat constructor.
Defined.

Lemma ids_follow_commit_order_witness :
  schedule racing_schedule started = Some after_race ∧
  stored (store started_world) `prefix_of` stored (store (world after_race)) ∧
  (msg_id race_second_row < msg_id race_first_row ↔ (6 < 7)%nat).
Proof.
  assert (schedule racing_schedule started = Some after_race) as H1
    by (vm_compute; reflexivity).
  destruct (ids_follow_commit_order started after_race) as [Hpre Hiff].
  - vm_compute. split; repeat constructor.
  - exact (schedule_steps _ _ _ H1).
  - split_and!; [exact H1|exact Hpre|].
    apply Hiff; vm_compute; reflexivity.
Defined.

Lemma disconnect_cleans_memberships_witness :
  "A" ∈ subscribersOf "group_1" (adapter (world after_hi)) ∧
  "A" ∉ subscribersOf "group_1" (adapter (world after_close)).
Proof.
  split; [vm_compute; reflexivity|].
  apply (disconnect_cleans_memberships started after_hi after_close "A").
  - split_and!; vm_compute; reflexivity.
  - apply (schedule_steps hi_schedule). vm_compute; reflexivity.
  - vm_compute; reflexivity.
Defined.



(** The end-to-end scenario on the database made by [setup-database.js]: the
    POST is stored under the next id and sent to A and B; once A has
    disconnected, B's message is sent to B alone; the history of group 1 ends
    with the two rows, in that order. *)
Lemma end_to_end_scenario :
  schedule (hi_schedule ++ bye_schedule) started = Some after_bye ∧
  outbox (world after_bye) =
    [mkEmission "group_1" "new_message" (Some hi_row) {["A"; "B"]};
     mkEmission "group_1" "new_message" (Some bye_row) {["B"]}] ∧
  history_ids (run (get_messages "1") (world after_bye)).1 =
    [1; 2; 3; 4; 5; 6; 7; 8].
Proof. split_and!; vm_compute; reflexivity. Qed.

(** * Further results *)

(** ** Which errors escape a handler *)

Lemma run_try_catch_returns {A} (p : Prog A) (h : JsError → Prog A) w :
  (∀ e w', ∃ a, (run (h e) w').1 = inr a) →
  ∃ a, (run (try_catch p h) w).1 = inr a.
Proof.
  intros Hh. revert w.
  induction p as [a|e|q ps k IH|room ev m k IH|id room k IH|id room k IH];
    intros w; simpl; eauto.
  destruct (db_execute q ps w) as [r w1]. apply IH.
Qed.

(** X1.  Run from any world, every handler, given a body or an event
    argument as the model has them, and both scripts end with a value:
    whatever [execute] throws or rejects with is caught inside.  The one
    error that escapes is the POST route's own: [req.body] is destructured
    before the [try], so with [req.body] [undefined] or [null] the route
    throws a [TypeError] and touches nothing; with any other body it is
    [post_messages] on the fields read, and ends with a value. *)
Theorem only_a_missing_body_escapes (w : World) :
  (∀ r, ∃ reply, (run (handler r) w).1 = inr reply) ∧
  (∀ id, run (post_request id (data_value JUndefined)) w =
           (inl TypeError_destructure, w)) ∧
  (∀ id, run (post_request id (data_value JNull)) w =
           (inl TypeError_destructure, w)) ∧
  (∀ id o, run (post_request id (data_object o)) w = run (post_messages id o) w) ∧
  (∀ id body, body ≠ data_value JUndefined → body ≠ data_value JNull →
              ∃ reply, (run (post_request id body) w).1 = inr reply) ∧
  (run createTables w).1 = inr () ∧
  (run setupDatabase w).1 = inr ().
Proof.
  split_and!; try done.
  - intros [id|id body|c g|c g|c data]; simpl handler.
    + apply run_try_catch_returns. intros; simpl; eauto.
    + apply run_try_catch_returns. intros; simpl; eauto.
    + simpl; eauto.
    + simpl; eauto.
    + apply run_try_catch_returns. intros; simpl; eauto.
  - intros id [o|v] Hu Hn.
    + apply (run_try_catch_returns _ _ w). intros; simpl; eauto.
    + destruct v; try done;
        apply (run_try_catch_returns _ _ w); intros; simpl; eauto.
  - unfold createTables.
    match goal with |- (run (try_catch ?p ?h) w).1 = _ =>
      destruct (run_try_catch_returns p h w) as [[] H];
        [intros; simpl; eauto|exact H] end.
  - unfold setupDatabase.
    match goal with |- (run (try_catch ?p ?h) w).1 = _ =>
      destruct (run_try_catch_returns p h w) as [[] H];
        [intros; simpl; eauto|exact H] end.
Qed.

(** ** Reading the history changes nothing *)

(** X2.  A history request leaves the whole world as it was: the store, the
    rooms and the outbox. *)
Theorem get_messages_changes_nothing (w : World) (id : string) :
  (run (get_messages id) w).2 = w.
Proof.
  rewrite run_get_messages.
  destruct (db_execute SELECT_messages_WHERE_group_id [JStr id] w)
    as [[e|r] w'] eqn:H; simpl.
  - by apply db_execute_error in H.
  - unfold db_execute in H.
    rewrite bool_decide_eq_false_2 in H
      by (by intros [=]%list_elem_of_singleton).
    destruct (db w) as [|[]]; simpl in H; try done.
    destruct (messages (store w)); simplify_eq/=.
    apply set_store_same.
Qed.

(** ** What a POST commits *)

Lemma insert_into_messages_row D t g s m a now i t' :
  insert_into_messages D t [g; s; m; a] now = inr (i, t') →
  ∃ gid sn txt anon,
    to_int_column INT_MIN INT_MAX g = inr gid ∧
    to_text_column 255 s = inr sn ∧
    to_text_column 65535 m = inr (Some txt) ∧
    to_int_column (-128) 127 a = inr anon ∧
    i = m_auto_increment t ∧
    t' = mkMessagesTable (group_id_not_null t) (references_user_groups t)
           (m_rows t ++ [mkMessage i gid sn txt anon now]) (i + 1).
Proof.
  unfold insert_into_messages.
  destruct (to_int_column INT_MIN INT_MAX g) as [|gid]; [done|]; simpl.
  destruct (check _ ER_BAD_NULL_ERROR); [done|]; simpl.
  destruct (to_text_column 255 s) as [|sn]; [done|]; simpl.
  destruct (to_text_column 65535 m) as [|[txt|]]; [done| |done]; simpl.
  destruct (to_int_column (-128) 127 a) as [|anon]; [done|]; simpl.
  destruct (check _ ER_NO_REFERENCED_ROW_2); [done|]; simpl.
  destruct (check _ ER_AUTOINC_READ_FAILED); [done|]; simpl.
  intros [= <- <-]. by eexists _, _, _, _.
Qed.

Lemma db_execute_insert_ok ps w res w1 :
  db_execute INSERT_INTO_messages ps w = (inr res, w1) →
  ∃ t i t',
    db w = db_connection true ∧ messages (store w) = Some t ∧
    insert_into_messages (store w) t ps (now w) = inr (i, t') ∧
    res = OkPacket i ∧ w1 = set_store w (with_messages (store w) t').
Proof.
  unfold db_execute. destruct (db w) as [|[]]; try done;
    destruct (bool_decide _); try done.
  simpl. destruct (messages (store w)) as [t|]; [|done].
  destruct (insert_into_messages _ _ _ _) as [|[i t']] eqn:Hins; [done|].
  intros [= <- <-]. exists t, i, t'. by rewrite Hins.
Qed.

(** [SELECT ... WHERE id = ?] with the id just handed out finds the row just
    inserted and no other. *)
Lemma select_inserted (l : list Message) (r : Message) :
  Forall (λ x, msg_id x < msg_id r) l →
  List.filter (where_id (JNum (msg_id r))) (l ++ [r]) = [r].
Proof.
  intros Hl. rewrite List.filter_app. simpl.
  unfold where_id at 2; simpl. rewrite Z.eqb_refl.
  replace (List.filter _ l) with (@nil Message); [done|].
  symmetry. induction Hl as [|x l Hx _ IH]; simpl; [done|].
  unfold where_id at 1; simpl.
  destruct (Z.eqb_spec (msg_id x) (msg_id r)); [lia|done].
Qed.

(** The decimal text of [n] is assigned to an integer column as [n]. *)
Lemma to_int_column_pretty lo hi n gid :
  to_int_column lo hi (JStr (pretty n)) = inr gid → gid = Some n.
Proof.
  unfold to_int_column, int_of_string. rewrite read_int_pretty.
  destruct (in_range lo hi n); by intros [=].
Qed.

Lemma run_post_messages_committed w id body :
  ids_ordered (store w) →
  (∃ e, run (post_messages id body) w = (inr (res_json 500 (error_json e)), w)) ∨
  (∃ t gid sn txt anon,
     let m := mkMessage (m_auto_increment t) gid sn txt anon (now w) in
     db w = db_connection true ∧ messages (store w) = Some t ∧
     to_int_column INT_MIN INT_MAX (JStr id) = inr gid ∧
     to_text_column 255 (js_or (field body "sender_name") (JStr "Anonymous"))
       = inr sn ∧
     to_text_column 65535 (field body "message") = inr (Some txt) ∧
     to_int_column (-128) 127 (js_or (field body "is_anonymous") (JBool true))
       = inr anon ∧
     run (post_messages id body) w =
       (inr (res_json 200 (row_json (Some m))),
        emit_to (room_of (JStr id)) "new_message" (Some m)
          (set_store w
             (with_messages (store w)
                (mkMessagesTable (group_id_not_null t)
                   (references_user_groups t) (m_rows t ++ [m])
                   (m_auto_increment t + 1)))))).
Proof.
  intros Hids. unfold post_messages; simpl.
  destruct (db_execute _ _ w) as [[e|res] w1] eqn:H1; simpl.
  { left. exists e. by apply db_execute_error in H1 as ->. }
  right.
  apply db_execute_insert_ok in H1 as (t & i & t' & Hdb & Ht & Hins & -> & ->).
  apply insert_into_messages_row in Hins
    as (gid & sn & txt & anon & Hg & Hs & Hm & Ha & -> & ->).
  exists t, gid, sn, txt, anon. split_and!; try done.
  unfold db_execute; simpl. rewrite Hdb.
  unfold ids_ordered in Hids. rewrite Ht in Hids. destruct Hids as [_ Hb].
  pose proof (select_inserted (m_rows t)
                (mkMessage (m_auto_increment t) gid sn txt anon (now w)) Hb)
    as Hsel.
  simpl in Hsel. rewrite Hsel. simpl. by destruct w.
Qed.

(** X5.  The row a successful POST answers with carries the request.  For
    a POST whose URL segment is the decimal text of an integer [n]: the
    group id of the row is [n]; a string text is stored as it is; the sender
    name is ["Anonymous"] when the submitted one is absent, [null], empty,
    [false] or [0], and a non-empty string otherwise is stored as it is; the
    flag is 1 when the submitted flag is absent, [null] or a boolean. *)
Theorem committed_row_carries_request (w w' : World) (n : Z)
    (body : JsObj) (m : Message) :
  ids_ordered (store w) →
  run (post_messages (pretty n) body) w =
    (inr (res_json 200 (row_json (Some m))), w') →
  group_id m = Some n ∧
  (∀ s, field body "message" = JStr s → message m = s) ∧
  (truthy (field body "sender_name") = false →
   sender_name m = Some "Anonymous"%string) ∧
  (∀ s, field body "sender_name" = JStr s → s ≠ ""%string →
        sender_name m = Some s) ∧
  (∀ b, field body "is_anonymous" = JUndefined ∨
        field body "is_anonymous" = JNull ∨
        field body "is_anonymous" = JBool b →
        is_anonymous m = Some 1).
Proof.
  intros Hids Hrun.
  destruct (run_post_messages_committed w (pretty n) body Hids)
    as [[e He]|(t & gid & sn & txt & anon & Hdb & Ht & Hg & Hs & Hm & Ha & Hrun')];
    [congruence|].
  rewrite Hrun in Hrun'. injection Hrun' as -> _. simpl. split_and!.
  - by apply to_int_column_pretty in Hg.
  - intros s Hf. rewrite Hf in Hm. simpl in Hm.
    destruct (_ <=? _) in Hm; by simplify_eq.
  - intros Hf. unfold js_or in Hs. rewrite Hf in Hs. by simplify_eq/=.
  - intros s Hf Hne. unfold js_or in Hs. rewrite Hf in Hs. simpl in Hs.
    destruct (String.eqb_spec s ""); [done|]. simpl in Hs.
    destruct (_ <=? _) in Hs; by simplify_eq.
  - intros b Hf. unfold js_or in Ha.
    destruct Hf as [Hf|[Hf|Hf]]; rewrite Hf in Ha; try destruct b;
      by simplify_eq/=.
Qed.

(** ** The history after a POST *)

(** X6.  After a POST for group [n] (its decimal text in the URL) has
    answered 200 with row [m], the history of group [n] is what it was
    before with [m] added, and the history of any other group [n'] is what
    it was before (up to the order of the rows). *)
Theorem history_gains_the_posted_row (w w' : World) (n n' : Z)
    (body : JsObj) (m : Message) :
  ids_ordered (store w) →
  run (post_messages (pretty n) body) w =
    (inr (res_json 200 (row_json (Some m))), w') →
  history_rows (run (get_messages (pretty n')) w').1 ≡ₚ
    history_rows (run (get_messages (pretty n')) w).1 ++
    (if bool_decide (n' = n) then [m] else []).
Proof.
  intros Hids Hrun.
  destruct (run_post_messages_committed w (pretty n) body Hids)
    as [[e He]|(t & gid & sn & txt & anon & Hdb & Ht & Hg & Hs & Hm & Ha & Hrun')];
    [congruence|].
  rewrite Hrun in Hrun'. injection Hrun' as -> ->.
  apply to_int_column_pretty in Hg as ->.
  rewrite (get_messages_ok (pretty n') w t) by done.
  erewrite get_messages_ok; [|exact Hdb|reflexivity]. simpl.
  rewrite !order_by_created_at_perm, List.filter_app. simpl.
  unfold where_group_id at 2, sql_number, numeric_prefix; simpl.
  rewrite read_int_pretty.
  destruct (Z.eqb_spec n n') as [->|Hne].
  - by rewrite bool_decide_eq_true_2.
  - by rewrite bool_decide_eq_false_2 by congruence.
Qed.

(** ** Who is sent a message *)

Lemma run_post_messages_emission w id body p w' :
  run (post_messages id body) w = (inr (res_json 200 (row_json p)), w') →
  outbox w' =
    outbox w ++ [mkEmission (room_of (JStr id)) "new_message" p
                   (subscribersOf (room_of (JStr id)) (adapter w))].
Proof.
  unfold post_messages; simpl.
  destruct (db_execute _ _ w) as [[e|r] w1] eqn:H1; simpl; [done|].
  destruct (db_execute_frame _ _ _ _ _ H1) as (_ & _ & Had1 & Hout1).
  destruct (db_execute _ _ w1) as [[e'|r'] w2] eqn:H2; simpl; [done|].
  destruct (db_execute_frame _ _ _ _ _ H2) as (_ & _ & Had2 & Hout2).
  intros [= <- <-]. unfold emit_to; simpl. congruence.
Qed.

(** X7.  Membership at the moment of the emit decides delivery.  When a
    socket has just joined a group, a POST for that group that answers 200
    emits its row to that socket; when it has just left, the emit does not
    reach it.  Either way the other sockets are reached exactly if they were
    subscribers of the room before. *)
Theorem membership_decides_delivery (w : World) (c id : string) (g : JsVal)
    (body : JsObj) :
  g = JStr id ∨ (∃ n, g = JNum n ∧ id = pretty n) →
  (∀ p w',
     run (post_messages id body) (run (on_join_group c g) w).2
       = (inr (res_json 200 (row_json p)), w') →
     ∃ e, outbox w' = outbox w ++ [e] ∧ payload e = p ∧ to e = room_of g ∧
          c ∈ recipients e ∧
          ∀ c', c' ≠ c →
                (c' ∈ recipients e ↔ c' ∈ subscribersOf (room_of g) (adapter w))) ∧
  (∀ p w',
     run (post_messages id body) (run (on_leave_group c g) w).2
       = (inr (res_json 200 (row_json p)), w') →
     ∃ e, outbox w' = outbox w ++ [e] ∧ payload e = p ∧ to e = room_of g ∧
          (c ∉ recipients e) ∧
          ∀ c', c' ≠ c →
                (c' ∈ recipients e ↔ c' ∈ subscribersOf (room_of g) (adapter w))).
Proof.
  intros Hg.
  assert (room_of (JStr id) = room_of g) as Hroom
    by (by destruct Hg as [-> | (n & -> & ->)]).
  split; intros p w' Hrun; apply run_post_messages_emission in Hrun;
    rewrite Hroom in Hrun; simpl in Hrun; eexists; (split; [exact Hrun|]);
    simpl; (split_and!; [done..| |]).
  - rewrite subscribersOf_addAll, decide_True by done. set_solver.
  - intros c' Hne. rewrite subscribersOf_addAll, decide_True by done. set_solver.
  - rewrite subscribersOf_del, decide_True by done. set_solver.
  - intros c' Hne. rewrite subscribersOf_del, decide_True by done. set_solver.
Qed.

(** ** Joining and leaving *)

(** X8.  Leaving right after joining undoes the join: for a socket that was
    not a subscriber of the group's room, on a consistent adapter, every
    room has the subscribers it had and every socket the rooms it had; store
    and outbox are untouched. *)
Theorem join_then_leave_restores (w : World) (c : string) (g : JsVal) :
  consistent (adapter w) →
  c ∉ subscribersOf (room_of g) (adapter w) →
  (∀ room, subscribersOf room
             (adapter (run (on_leave_group c g) (run (on_join_group c g) w).2).2)
           = subscribersOf room (adapter w)) ∧
  (∀ c', rooms_of c'
           (adapter (run (on_leave_group c g) (run (on_join_group c g) w).2).2)
         = rooms_of c' (adapter w)) ∧
  store (run (on_leave_group c g) (run (on_join_group c g) w).2).2 = store w ∧
  outbox (run (on_leave_group c g) (run (on_join_group c g) w).2).2 = outbox w.
Proof.
  intros Hc Hnot. simpl. split_and!; try done.
  - intros room. rewrite subscribersOf_del.
    destruct (decide (room_of g = room)) as [<-|Hr].
    + rewrite subscribersOf_addAll, decide_True by done. set_solver.
    + by rewrite subscribersOf_addAll, decide_False.
  - intros c'. rewrite rooms_of_del.
    destruct (decide (c = c')) as [<-|Hcc].
    + rewrite rooms_of_addAll, decide_True by done.
      assert (room_of g ∉ rooms_of c (adapter w))
        by (intros Hin; by apply Hc in Hin).
      set_solver.
    + by rewrite rooms_of_addAll, decide_False.
Qed.

(** X9.  In every run of the server, a socket that closes takes nobody with
    it: every other socket is a subscriber of exactly the rooms it was a
    subscriber of, and the store and the outbox are untouched. *)
Theorem disconnect_spares_the_others s s' s'' c :
  listening s → steps s s' → perform (close_socket c) s' = Some s'' →
  (∀ c' room, c' ≠ c →
     (c' ∈ subscribersOf room (adapter (world s'')) ↔
      c' ∈ subscribersOf room (adapter (world s')))) ∧
  store (world s'') = store (world s') ∧
  outbox (world s'') = outbox (world s').
Proof.
  intros (Ha & _ & _) Hsteps Hclose.
  assert (consistent (adapter (world s'))) as Hc.
  { eapply steps_consistent; [done|]. rewrite Ha. apply consistent_empty. }
  simpl in Hclose.
  destruct (sids (adapter (world s')) !! c); simplify_eq/=.
  split_and!; try done.
  intros c' room Hne. rewrite subscribersOf_delAll by done. set_solver.
Qed.

(** ** Requests and the schema *)

Lemma same_schema_refl D : same_schema D D.
Proof. by repeat split. Qed.

Lemma same_schema_trans D1 D2 D3 :
  same_schema D1 D2 → same_schema D2 D3 → same_schema D1 D3.
Proof. unfold same_schema. intros (?&?&?&?&?&?) (?&?&?&?&?&?). split_and!; congruence. Qed.

Lemma message_statement_same_schema q ps now D r D' :
  message_statement q = true →
  execute_sql q ps now D = (r, D') → same_schema D D'.
Proof.
  destruct q; try done; intros _ H; simpl in H.
  - destruct (messages D), ps as [|? [|? ?]]; simplify_eq; apply same_schema_refl.
  - destruct (messages D) as [t|] eqn:Ht; simplify_eq; [|apply same_schema_refl].
    destruct (insert_into_messages D t ps now) as [e|[i t']] eqn:Hins;
      simplify_eq; [apply same_schema_refl|].
    apply insert_into_messages_inv in Hins
      as (x & _ & _ & _ & _ & _ & _ & Hn & Hf).
    unfold same_schema, declaration; simpl. rewrite Ht; simpl.
    split_and!; try done. by rewrite Hn, Hf.
  - destruct (messages D), ps as [|? [|? ?]]; simplify_eq; apply same_schema_refl.
Qed.

Lemma db_execute_same_schema q ps w r w' :
  message_statement q = true →
  db_execute q ps w = (r, w') → same_schema (store w) (store w').
Proof.
  intros Hq. unfold db_execute.
  destruct (db w) as [|[]]; [intros [= <- <-]; apply same_schema_refl| |];
    (destruct (bool_decide _); [intros [= <- <-]; apply same_schema_refl|]).
  - destruct (execute_sql q ps (now w) (store w)) as [r0 D'] eqn:H.
    intros [= <- <-]. simpl. by eapply message_statement_same_schema.
  - intros [= <- <-]; apply same_schema_refl.
Qed.

Lemma handler_only_message_statements r : only_message_statements (handler r).
Proof.
  destruct r as [id|id body|c g|c g|c [o|[]]]; simpl; try done;
    (split; [done|]); intros [e|r]; simpl; try done;
    (split; [done|]); intros [e'|r']; simpl; done.
Qed.

Lemma advance_only_message_statements {A} (p : Prog A) w :
  only_message_statements p → only_message_statements (advance p w).1.
Proof.
  revert w. induction p as [a|e|q ps k _|room ev m k IH|id room k IH|id room k IH];
    intros w; simpl; eauto.
Qed.

Lemma perform_same_schema a s s' :
  perform a s = Some s' →
  Forall only_message_statements (pool s) →
  same_schema (store (world s)) (store (world s')) ∧
  Forall only_message_statements (pool s').
Proof.
  destruct s as [w ts]. intros H Hpool; simpl in *.
  destruct a as [r|i|c|c|t|]; simpl in H.
  - destruct (admissible r w); [|done].
    destruct (advance (handler r) w) as [t w'] eqn:Hadv. simplify_eq/=.
    destruct (advance_frame _ _ _ _ Hadv) as (-> & _).
    split; [apply same_schema_refl|].
    apply Forall_app. split; [done|]. constructor; [|done].
    pose proof (advance_only_message_statements (handler r) w
                  (handler_only_message_statements r)) as Ht.
    by rewrite Hadv in Ht.
  - destruct (ts !! i) as [[| |q ps k| | |]|] eqn:Hi; try done.
    destruct (db_execute q ps w) as [r w1] eqn:Hdb.
    destruct (advance (k r) w1) as [t w2] eqn:Hadv. simplify_eq/=.
    destruct (advance_frame _ _ _ _ Hadv) as (-> & _).
    destruct (Forall_lookup_1 _ _ _ _ Hpool Hi) as [Hq Hk].
    split; [by eapply db_execute_same_schema|].
    apply Forall_insert; [done|].
    pose proof (advance_only_message_statements (k r) w1 (Hk r)) as Ht.
    by rewrite Hadv in Ht.
  - destruct (sids (adapter w) !! c); simplify_eq/=.
    split; [apply same_schema_refl|done].
  - destruct (sids (adapter w) !! c); simplify_eq/=.
    split; [apply same_schema_refl|done].
  - simplify_eq/=. split; [apply same_schema_refl|done].
  - destruct (db w) as [|[]]; simplify_eq/=.
    split; [apply same_schema_refl|done].
Qed.

(** X10.  Serving requests never touches the schema or the groups: in every
    run of the server the tables that exist, the rows of [groups] and
    [user_groups], the indexes and the declaration of [messages] stay what
    they were when it started listening.  Only rows of [messages] are
    added. *)
Theorem requests_leave_schema_and_groups s s' :
  listening s → steps s s' →
  same_schema (store (world s)) (store (world s')) ∧
  stored (store (world s)) `prefix_of` stored (store (world s')).
Proof.
  intros (_ & _ & Hp) Hsteps. split; [|by apply steps_stored].
  assert (Forall only_message_statements (pool s)) as Hpool
    by (rewrite Hp; constructor).
  clear Hp. induction Hsteps as [s|s1 s2 s3 [a Ha] _ IH];
    [apply same_schema_refl|].
  destruct (perform_same_schema _ _ _ Ha Hpool) as [H12 Hpool2].
  eapply same_schema_trans; [exact H12|]. by apply IH.
Qed.

(** ** The groups route *)

Lemma insert_newest_first_perm g l : insert_newest_first g l ≡ₚ g :: l.
Proof.
  induction l as [|g' l IH]; simpl; [done|].
  destruct (grp_created_at g' <=? grp_created_at g); [done|].
  rewrite IH. apply perm_swap.
Qed.

Lemma newest_first_perm l : newest_first l ≡ₚ l.
Proof.
  induction l as [|g l IH]; simpl; [done|].
  rewrite insert_newest_first_perm. by f_equiv.
Qed.

Lemma insert_newest_first_sorted g l :
  StronglySorted by_created_at_desc l →
  StronglySorted by_created_at_desc (insert_newest_first g l).
Proof.
  induction 1 as [|g' l Hl IH Hg']; simpl.
  { repeat constructor. }
  destruct (Z.leb_spec (grp_created_at g') (grp_created_at g)) as [Hle|Hgt].
  - constructor; [by constructor|].
    constructor; [done|].
    eapply Forall_impl; [exact Hg'|]. unfold by_created_at_desc. intros; lia.
  - constructor; [done|].
    rewrite insert_newest_first_perm. constructor; [|done].
    unfold by_created_at_desc. lia.
Qed.

Lemma newest_first_sorted l : StronglySorted by_created_at_desc (newest_first l).
Proof.
  induction l; simpl; [constructor|]. by apply insert_newest_first_sorted.
Qed.

(** X11.  [GET /api/groups] answers 200 with exactly the rows of
    [user_groups], newest first, whenever the connection is up and that
    table exists; it answers 500 exactly when [db] is unassigned, the
    connection is lost or the table is missing. *)
Theorem groups_newest_first_or_500 (w : World) :
  (∀ t, db w = db_connection true → user_groups (store w) = Some t →
        ∃ l, get_groups w = groups_json 200 l ∧ l ≡ₚ g_rows t ∧
             StronglySorted by_created_at_desc l) ∧
  (∀ e, get_groups w = groups_error 500 e ↔
        (db w = db_undefined ∧ e = TypeError_db_undefined) ∨
        (db w = db_connection false ∧ e = PROTOCOL_CONNECTION_LOST) ∨
        (db w = db_connection true ∧ user_groups (store w) = None ∧
         e = ER_NO_SUCH_TABLE)).
Proof.
  unfold get_groups, db_query, select_user_groups. split.
  - intros t -> ->. simpl. eexists. split; [done|].
    split; [apply newest_first_perm|apply newest_first_sorted].
  - intros e. destruct (db w) as [|[]]; simpl; [naive_solver| |naive_solver].
    destruct (user_groups (store w)); naive_solver.
Qed.

Lemma execute_sql_user_groups_missing q ps now D :
  user_groups D = None → user_groups (execute_sql q ps now D).2 = None.
Proof.
  intros Hu. destruct q; simpl; rewrite ?Hu;
    repeat (match goal with
            | |- context [match ?x with _ => _ end] => destruct x eqn:?
            end; simpl); done.
Qed.

Lemma db_execute_user_groups_missing q ps w :
  user_groups (store w) = None →
  user_groups (store (db_execute q ps w).2) = None.
Proof.
  intros Hu. unfold db_execute.
  destruct (db w) as [|[]]; [done| |]; destruct (bool_decide _); try done.
  pose proof (execute_sql_user_groups_missing q ps (now w) (store w) Hu).
  by destruct (execute_sql q ps (now w) (store w)).
Qed.

Lemma run_user_groups_missing {A} (p : Prog A) w :
  user_groups (store w) = None → user_groups (store (run p w).2) = None.
Proof.
  revert w. induction p as [a|e|q ps k IH|room ev m k IH|id room k IH|id room k IH];
    intros w Hu; simpl; eauto.
  pose proof (db_execute_user_groups_missing q ps w Hu) as H.
  destruct (db_execute q ps w) as [r w1]. by apply IH.
Qed.

Lemma advance_store {A} (p : Prog A) w : store (advance p w).2 = store w.
Proof.
  destruct (advance p w) as [t w'] eqn:H. simpl.
  by destruct (advance_frame _ _ _ _ H) as (-> & _).
Qed.

Lemma perform_user_groups_missing a s s' :
  perform a s = Some s' →
  user_groups (store (world s)) = None →
  user_groups (store (world s')) = None.
Proof.
  destruct s as [w ts]. intros H Hu; simpl in *.
  destruct a as [r|i|c|c|t|]; simpl in H.
  - destruct (admissible r w); [|done].
    pose proof (advance_store (handler r) w) as Hs.
    destruct (advance (handler r) w) as [t w']. simplify_eq/=. by rewrite Hs.
  - destruct (ts !! i) as [[| |q ps k| | |]|] eqn:Hi; try done.
    pose proof (db_execute_user_groups_missing q ps w Hu) as H1.
    destruct (db_execute q ps w) as [r w1].
    pose proof (advance_store (k r) w1) as Hs.
    destruct (advance (k r) w1) as [t w2]. simplify_eq/=. by rewrite Hs.
  - destruct (sids (adapter w) !! c); by simplify_eq.
  - destruct (sids (adapter w) !! c); by simplify_eq.
  - by simplify_eq.
  - destruct (db w) as [|[]]; by simplify_eq.
Qed.

(** X12.  Nothing in the two files creates [user_groups], the table
    [GET /api/groups] reads.  On a database without it, neither
    [setup-database.js], nor starting the server, nor any run of the server
    brings it into being, so in all the worlds so reached [GET /api/groups]
    answers 500. *)
Theorem groups_route_has_no_table (w : World) :
  user_groups (store w) = None →
  (∀ A (p : Prog A), user_groups (store (run p w).2) = None) ∧
  (∀ reachable, user_groups (store (initDB reachable w)) = None) ∧
  (∀ ts s', steps (mkSystem w ts) s' →
            user_groups (store (world s')) = None) ∧
  (∀ w', user_groups (store w') = None → ∃ e, get_groups w' = groups_error 500 e).
Proof.
  intros Hu. split_and!.
  - intros A p. by apply run_user_groups_missing.
  - intros [|]; [|done]. unfold initDB. by apply run_user_groups_missing.
  - intros ts s' Hsteps.
    remember (mkSystem w ts) as s eqn:Hs.
    assert (user_groups (store (world s)) = None) as H by (by subst).
    clear Hs Hu. induction Hsteps as [s|s1 s2 s3 [a Ha] _ IH]; [done|].
    apply IH. by eapply perform_user_groups_missing.
  - intros w' Hu'. unfold get_groups, db_query, select_user_groups.
    rewrite Hu'. destruct (db w') as [|[]]; simpl; eauto.
Qed.

(** ** The test route *)

Lemma run_db {A} (p : Prog A) w : db (run p w).2 = db w.
Proof.
  revert w. induction p as [a|e|q ps k IH|room ev m k IH|id room k IH|id room k IH];
    intros w; simpl; try done; try (by rewrite IH).
  destruct (db_execute q ps w) as [r w1] eqn:H.
  destruct (db_execute_frame _ _ _ _ _ H) as (Hd & _). by rewrite IH.
Qed.

Lemma perform_db_assigned a s s' :
  perform a s = Some s' →
  (db (world s') = db_undefined ↔ db (world s) = db_undefined).
Proof.
  destruct s as [w ts]. intros H; simpl in *.
  destruct a as [r|i|c|c|t|]; simpl in H.
  - destruct (admissible r w); [|done].
    destruct (advance (handler r) w) as [t w'] eqn:Hadv. simplify_eq/=.
    destruct (advance_frame _ _ _ _ Hadv) as (_ & Hd & _). split; congruence.
  - destruct (ts !! i) as [[| |q ps k| | |]|] eqn:Hi; try done.
    destruct (db_execute q ps w) as [r w1] eqn:Hdb.
    destruct (advance (k r) w1) as [t w2] eqn:Hadv. simplify_eq/=.
    destruct (advance_frame _ _ _ _ Hadv) as (_ & Hd & _).
    destruct (db_execute_frame _ _ _ _ _ Hdb) as (Hd1 & _).
    split; congruence.
  - destruct (sids (adapter w) !! c); by simplify_eq.
  - destruct (sids (adapter w) !! c); by simplify_eq.
  - by simplify_eq.
  - destruct (db w) as [|[]] eqn:Hd; simplify_eq/=. split; congruence.
Qed.

(** X13.  [GET /api/test] reports how the start went, not how the
    connection is: in every run of a server started by [initDB], it says
    ["Connected"] if [createConnection] had resolved, and
    ["Not connected"] if it had not, whatever happened to the connection
    since. *)
Theorem test_route_reports_the_start (w : World) (reachable : bool)
    (date : string) s' :
  db w = db_undefined →
  steps (mkSystem (initDB reachable w) []) s' →
  get_test date (world s') =
    mkTestReply "Server is running!" date
      (if reachable then "Connected" else "Not connected").
Proof.
  intros Hw Hsteps.
  assert (db (world s') = db_undefined ↔ reachable = false) as Hiff.
  { remember (mkSystem (initDB reachable w) []) as s eqn:Hs.
    assert (db (world s) = db_undefined ↔ reachable = false) as H.
    { subst s. unfold initDB. destruct reachable; cbn [world]; [|by split].
      rewrite run_db. by split. }
    clear Hs Hw. induction Hsteps as [s|s1 s2 s3 [a Ha] _ IH]; [done|].
    apply IH. by rewrite (perform_db_assigned _ _ _ Ha). }
  unfold get_test. destruct (db (world s')), reachable; try done.
  - destruct Hiff as [H _]. by specialize (H eq_refl).
  - destruct Hiff as [_ H]. by specialize (H eq_refl).
Qed.

(** ** A POST among other handlers *)

(** Only [resume i] moves the handler in slot [i]. *)
Lemma perform_slot a s s' i :
  a ≠ resume i → (i < List.length (pool s))%nat →
  perform a s = Some s' →
  pool s' !! i = pool s !! i ∧ (i < List.length (pool s'))%nat.
Proof.
  destruct s as [w ts]. intros Ha Hi H; simpl in *.
  destruct a as [r|j|c|c|t|]; simpl in H.
  - destruct (admissible r w); [|done].
    destruct (advance (handler r) w) as [t w']. simplify_eq/=.
    rewrite lookup_app_l, length_app by done. split; [done|lia].
  - destruct (ts !! j) as [[| |q ps k| | |]|] eqn:Hj; try done.
    destruct (db_execute q ps w) as [r w1].
    destruct (advance (k r) w1) as [t w2]. simplify_eq/=.
    rewrite list_lookup_insert_ne, length_insert by congruence. done.
  - destruct (sids (adapter w) !! c); by simplify_eq/=.
  - destruct (sids (adapter w) !! c); by simplify_eq/=.
  - by simplify_eq/=.
  - destruct (db w) as [|[]]; by simplify_eq/=.
Qed.

Lemma schedule_slot acts s s' i :
  resume i ∉ acts → (i < List.length (pool s))%nat →
  schedule acts s = Some s' →
  pool s' !! i = pool s !! i.
Proof.
  revert s. induction acts as [|a acts IH]; simpl; intros s Hn Hi H.
  - by simplify_eq.
  - destruct (perform a s) as [s1|] eqn:Ha; [|done]. simpl in H.
    apply not_elem_of_cons in Hn as [Hne Hn].
    destruct (perform_slot a s s1 i) as [Hs Hi1]; [done..|].
    rewrite <-Hs. by apply IH.
Qed.

Lemma steps_db_assigned s s' :
  steps s s' → (db (world s') = db_undefined ↔ db (world s) = db_undefined).
Proof.
  induction 1 as [s|s1 s2 s3 [a Ha] _ IH]; [done|].
  by rewrite IH, (perform_db_assigned _ _ _ Ha).
Qed.

(** [SELECT ... WHERE id = ?] finds a stored row by its id, and no other,
    ids being ordered. *)
Lemma select_none (l : list Message) (n : Z) :
  Forall (λ x, msg_id x ≠ n) l → List.filter (where_id (JNum n)) l = [].
Proof.
  induction 1 as [|x l Hx _ IH]; simpl; [done|].
  unfold where_id at 1; simpl.
  by destruct (Z.eqb_spec (msg_id x) n).
Qed.

Lemma select_stored (l : list Message) (m : Message) :
  StronglySorted (λ a b, msg_id a < msg_id b) l → m ∈ l →
  List.filter (where_id (JNum (msg_id m))) l = [m].
Proof.
  induction 1 as [|x l Hs IH Hx]; intros Hin; [by apply elem_of_nil in Hin|].
  simpl. unfold where_id at 1; simpl.
  apply elem_of_cons in Hin as [->|Hin].
  - rewrite Z.eqb_refl, select_none; [done|].
    eapply Forall_impl; [exact Hx|]. simpl. lia.
  - rewrite Forall_forall in Hx. specialize (Hx _ Hin).
    destruct (Z.eqb_spec (msg_id x) (msg_id m)); [lia|]. by apply IH.
Qed.

(** The [INSERT] of a POST, whenever it runs. *)
Lemma resume_insert s s2 i id body :
  ids_ordered (store (world s)) →
  pool s !! i = Some (post_messages id body) →
  perform (resume i) s = Some s2 →
  (∃ e, pool s2 !! i = Some (Ret (res_json 500 (error_json e))) ∧
        world s2 = world s) ∨
  (∃ m, pool s2 !! i = Some (selecting id (msg_id m)) ∧
        stored (store (world s2)) = stored (store (world s)) ++ [m] ∧
        (∀ r, r ∈ stored (store (world s)) → msg_id r < msg_id m) ∧
        created_at m = now (world s) ∧
        same_schema (store (world s)) (store (world s2)) ∧
        db (world s2) = db_connection true ∧
        db (world s) = db_connection true ∧
        now (world s2) = now (world s) ∧
        adapter (world s2) = adapter (world s) ∧
        outbox (world s2) = outbox (world s)).
Proof.
  destruct s as [w ts]. cbn [world pool]. intros Hids Hi H.
  assert (i < List.length ts)%nat as Hlt by (by eapply lookup_lt_Some).
  cbn [perform world pool] in H. rewrite Hi in H.
  unfold post_messages in H. cbn [try_catch mbind Prog_bind prog_bind execute] in H.
  destruct (db_execute _ _ w) as [[e|res] w1] eqn:H1.
  - apply db_execute_error in H1 as ->. simpl in H. simplify_eq/=.
    left. exists e. by rewrite list_lookup_insert_eq.
  - right.
    apply db_execute_insert_ok in H1 as (t & n & t' & Hdb & Ht & Hins & -> & ->).
    apply insert_into_messages_row in Hins
      as (gid & sn & txt & anon & Hg & Hs & Hm & Ha & -> & ->).
    simpl in H. simplify_eq/=.
    exists (mkMessage (m_auto_increment t) gid sn txt anon (now w)).
    rewrite list_lookup_insert_eq by done.
    unfold stored, same_schema; simpl. rewrite Ht; simpl.
    split_and!; try done.
    unfold ids_ordered in Hids. rewrite Ht in Hids. destruct Hids as [_ Hb].
    rewrite Forall_forall in Hb. exact Hb.
Qed.

(** Its [SELECT], whenever it runs. *)
Lemma resume_select s s4 i id m :
  ids_ordered (store (world s)) →
  m ∈ stored (store (world s)) →
  db (world s) ≠ db_undefined →
  pool s !! i = Some (selecting id (msg_id m)) →
  perform (resume i) s = Some s4 →
  (db (world s) = db_connection true ∧
   pool s4 !! i = Some (Ret (res_json 200 (row_json (Some m)))) ∧
   world s4 = emit_to (room_of (JStr id)) "new_message" (Some m) (world s)) ∨
  (db (world s) = db_connection false ∧
   pool s4 !! i =
     Some (Ret (res_json 500 (error_json PROTOCOL_CONNECTION_LOST))) ∧
   world s4 = world s).
Proof.
  destruct s as [w ts]. cbn [world pool]. intros Hids Hin Hdb Hi H.
  assert (i < List.length ts)%nat as Hlt by (by eapply lookup_lt_Some).
  cbn [perform world pool] in H. rewrite Hi in H.
  unfold selecting in H. cbn [try_catch mbind Prog_bind prog_bind execute] in H.
  unfold db_execute in H. destruct (db w) as [|[]] eqn:Hd; [done| |].
  - left. simpl in H.
    unfold stored in Hin. unfold ids_ordered in Hids.
    destruct (messages (store w)) as [t|] eqn:Ht; [|by apply elem_of_nil in Hin].
    destruct Hids as [Hs _].
    rewrite (select_stored _ _ Hs Hin) in H. simpl in H.
    rewrite set_store_same in H. simplify_eq/=.
    by rewrite list_lookup_insert_eq.
  - right. simpl in H. simplify_eq/=.
    by rewrite list_lookup_insert_eq.
Qed.

(** X4.  A POST, step by step, whatever else happens around it.  Its
    request arrives; other handlers, sockets, the clock and the connection
    may act ([before]); its [INSERT] runs.  Either the [INSERT] is refused,
    and the handler ends at once with status 500, the world untouched; or
    one row [m] is added to [messages], with an id above all others and the
    store's time, and nothing else changes yet: nothing is emitted.  In the
    second case, whatever happens next ([between]), when its [SELECT] runs
    [m] is still stored, and: with the connection up, the handler answers
    200 with [m] and emits [m] to the room [group_<id>] as it is then; with
    the connection lost in between, it answers 500 and emits nothing, the
    row staying stored. *)
Theorem post_step_by_step (s s1 s2 : System) (id : string) (body : JsObj)
    (before : list Action) :
  ids_ordered (store (world s)) →
  resume (List.length (pool s)) ∉ before →
  schedule (arrive (POST_messages id body) :: before) s = Some s1 →
  perform (resume (List.length (pool s))) s1 = Some s2 →
  (∃ e, pool s2 !! List.length (pool s) =
          Some (Ret (res_json 500 (error_json e))) ∧
        world s2 = world s1) ∨
  (∃ m, stored (store (world s2)) = stored (store (world s1)) ++ [m] ∧
        (∀ r, r ∈ stored (store (world s1)) → msg_id r < msg_id m) ∧
        created_at m = now (world s1) ∧
        same_schema (store (world s1)) (store (world s2)) ∧
        adapter (world s2) = adapter (world s1) ∧
        outbox (world s2) = outbox (world s1) ∧
        ∀ between s3 s4,
          resume (List.length (pool s)) ∉ between →
          schedule between s2 = Some s3 →
          perform (resume (List.length (pool s))) s3 = Some s4 →
          m ∈ stored (store (world s4)) ∧
          ((db (world s3) = db_connection true ∧
            pool s4 !! List.length (pool s) =
              Some (Ret (res_json 200 (row_json (Some m)))) ∧
            world s4 =
              emit_to (room_of (JStr id)) "new_message" (Some m) (world s3)) ∨
           (db (world s3) = db_connection false ∧
            pool s4 !! List.length (pool s) =
              Some (Ret (res_json 500 (error_json PROTOCOL_CONNECTION_LOST))) ∧
            world s4 = world s3))).
Proof.
  intros Hids Hbefore Hsched Hres.
  set (i := List.length (pool s)) in *.
  cbn [schedule] in Hsched.
  destruct (perform (arrive (POST_messages id body)) s) as [s0|] eqn:Harr;
    [|done].
  cbn [mbind option_bind] in Hsched.
  assert (pool s0 = pool s ++ [post_messages id body]) as Hpool
    by (destruct s; cbn in Harr; by simplify_eq).
  assert (pool s1 !! i = Some (post_messages id body)) as Hslot.
  { rewrite (schedule_slot before s0 s1 i); [|done| |done].
    - rewrite Hpool. by apply list_lookup_middle.
    - rewrite Hpool, length_app. simpl. lia. }
  assert (steps s s1) as Hsteps.
  { apply (schedule_steps (arrive (POST_messages id body) :: before)).
    cbn [schedule]. by rewrite Harr. }
  pose proof (steps_ids_ordered _ _ Hsteps Hids) as Hids1.
  destruct (resume_insert s1 s2 i id body Hids1 Hslot Hres)
    as [?|(m & Hslot2 & Hst & Hmax & Hat & Hsch & Hdb2 & _ & _ & Had & Hout)];
    [by left|right].
  exists m. split_and!; try done.
  intros between s3 s4 Hbetween Hsched2 Hres2.
  assert (steps s2 s3) as Hsteps2 by (by eapply schedule_steps).
  assert (m ∈ stored (store (world s3))) as Hin.
  { eapply prefix_elem_of; [by apply steps_stored|].
    rewrite Hst. apply elem_of_app. right. by apply list_elem_of_singleton. }
  assert (ids_ordered (store (world s2))) as Hids2.
  { eapply steps_ids_ordered; [|exact Hids1].
    eapply rtc_once. by exists (resume i). }
  assert (pool s3 !! i = Some (selecting id (msg_id m))) as Hslot3.
  { rewrite (schedule_slot between s2 s3 i); [done..| |done].
    by eapply lookup_lt_Some. }
  destruct (resume_select s3 s4 i id m) as [(Hup & Hrep & Hw)|(Hup & Hrep & Hw)];
    try done.
  - by eapply steps_ids_ordered.
  - rewrite (steps_db_assigned _ _ Hsteps2), Hdb2. done.
  - split; [|by left]. rewrite Hw. exact Hin.
  - split; [|by right]. rewrite Hw. exact Hin.
Qed.

(** ** Running programs, piece by piece *)

Lemma run_bind {A B} (p : Prog A) (f : A → Prog B) w :
  run (p ≫= f) w =
    match run p w with
    | (inl e, w') => (inl e, w')
    | (inr a, w') => run (f a) w'
    end.
Proof.
  revert w. induction p as [a|e|q ps k IH|room ev m k IH|id room k IH|id room k IH];
    intros w; try done; try apply IH.
  change (run (Await q ps k ≫= f) w)
    with (let '(r, w') := db_execute q ps w in run (k r ≫= f) w').
  simpl. destruct (db_execute q ps w) as [r w']. apply IH.
Qed.

Lemma run_try_catch {A} (p : Prog A) (h : JsError → Prog A) w :
  run (try_catch p h) w =
    match run p w with
    | (inl e, w') => run (h e) w'
    | (inr a, w') => (inr a, w')
    end.
Proof.
  revert w. induction p as [a|e|q ps k IH|room ev m k IH|id room k IH|id room k IH];
    intros w; simpl; try done.
  destruct (db_execute q ps w) as [r w']. apply IH.
Qed.

Lemma run_execute q ps w :
  run (execute q ps) w =
    match db_execute q ps w with
    | (inl e, w') => (inl e, w')
    | (inr r, w') => (inr r, w')
    end.
Proof. simpl. by destruct (db_execute q ps w) as [[e|r] w']. Qed.

Lemma run_ret_bind {A B} (a : A) (f : A → Prog B) w :
  run (mret a ≫= f) w = run (f a) w.
Proof. done. Qed.

Lemma run_bind_assoc {A B C} (p : Prog A) (g : A → Prog B) (f : B → Prog C) w :
  run ((p ≫= g) ≫= f) w = run (p ≫= λ x, g x ≫= f) w.
Proof.
  rewrite !run_bind. destruct (run p w) as [[e|x] w']; [done|].
  by rewrite run_bind.
Qed.

Lemma db_execute_open q ps w :
  db w = db_connection true → bool_decide (JUndefined ∈ ps) = false →
  db_execute q ps w =
    ((execute_sql q ps (now w) (store w)).1,
     set_store w (execute_sql q ps (now w) (store w)).2).
Proof.
  intros Hdb Hps. unfold db_execute. rewrite Hdb, Hps.
  by destruct (execute_sql q ps (now w) (store w)).
Qed.

Lemma run_execute_bind {B} q ps (f : ResultSet → Prog B) w :
  db w = db_connection true → bool_decide (JUndefined ∈ ps) = false →
  run (execute q ps ≫= f) w =
    match execute_sql q ps (now w) (store w) with
    | (inl e, D') => (inl e, set_store w D')
    | (inr r, D') => run (f r) (set_store w D')
    end.
Proof.
  intros Hdb Hps. rewrite run_bind, run_execute, db_execute_open by done.
  by destruct (execute_sql q ps (now w) (store w)) as [[e|r] D'].
Qed.

Lemma run_ignore_errors_bind {B} q ps (f : () → Prog B) w :
  db w = db_connection true → bool_decide (JUndefined ∈ ps) = false →
  run (ignore_errors (execute q ps ≫= λ _, mret ()) ≫= f) w =
    run (f ()) (set_store w (execute_sql q ps (now w) (store w)).2).
Proof.
  intros Hdb Hps. rewrite run_bind. unfold ignore_errors.
  rewrite run_try_catch, run_execute_bind by done.
  by destruct (execute_sql q ps (now w) (store w)) as [[e|r] D'].
Qed.

Ltac tidy :=
  cbn [execute_sql];
  unfold set_store, with_groups, with_messages, with_user_groups;
  cbn [store now db adapter outbox groups user_groups messages users
       idx_group_id idx_created_at group_rows count_of fst snd execute_sql].

Ltac script_step :=
  first [rewrite run_execute_bind by done
        |rewrite run_ignore_errors_bind by done];
  tidy.

(** A script run on a connection that is not up changes nothing. *)
Lemma run_script_refused {B} q ps (f : ResultSet → Prog B) h w :
  db w ≠ db_connection true →
  (∀ e w', (run (h e) w').2 = w') →
  (run (try_catch (execute q ps ≫= f) h) w).2 = w.
Proof.
  intros Hdb Hh. rewrite run_try_catch, run_bind, run_execute.
  unfold db_execute.
  destruct (db w) as [|[]]; [by rewrite Hh|done|].
  destruct (bool_decide _); by rewrite Hh.
Qed.

(** ** [createTables] in closed form *)

Lemma createTables_store w :
  db w = db_connection true →
  (run createTables w).2 = set_store w (created (now w) (store w)).
Proof.
  destruct w as [d [g u m us i1 i2] n a o]. cbn [db]. intros ->.
  unfold createTables, created, with_default_group, has_default_group, set_store;
    simpl.
  destruct g as [g|], u as [u|], m as [m|]; simpl; try done.
  all: destruct (bool_decide _) eqn:Hb; simpl; try done.
  all: unfold db_execute, set_store; simpl.
  all: unfold check; destruct (_ <=? INT_MAX); simpl; done.
Qed.

Lemma has_default_group_after_insert t now i t' :
  insert_into_groups t [JStr "Fun Friday Group"] now = inr (i, t') →
  has_default_group t' = true.
Proof.
  unfold insert_into_groups; simpl.
  destruct (check _ _); simpl; [done|]. intros [= <- <-].
  unfold has_default_group; simpl.
  rewrite List.filter_app, length_app; simpl.
  apply negb_true_iff, bool_decide_eq_false. lia.
Qed.

Lemma with_default_group_idemp now t :
  with_default_group now (with_default_group now t) = with_default_group now t.
Proof.
  unfold with_default_group at 2 3. destruct (has_default_group t) eqn:Hn.
  - unfold with_default_group. by rewrite Hn.
  - destruct (insert_into_groups t _ now) as [e|[i t']] eqn:Hins.
    + unfold with_default_group. by rewrite Hn, Hins.
    + unfold with_default_group.
      by rewrite (has_default_group_after_insert _ _ _ _ Hins).
Qed.

Lemma created_idemp now D : created now (created now D) = created now D.
Proof.
  destruct D as [g u m us i1 i2]. unfold created; simpl.
  destruct m as [m|], u as [u|]; simpl; try done;
    by rewrite ?with_default_group_idemp.
Qed.

(** X14.  Starting the server again changes nothing: [initDB] run on the
    world it has left returns that world, whether the connection could be
    made or not. *)
Theorem initDB_idempotent (reachable : bool) (w : World) :
  initDB reachable (initDB reachable w) = initDB reachable w.
Proof.
  destruct reachable; [|done]. unfold initDB.
  rewrite !createTables_store by done.
  destruct w as [d D n a o]; unfold set_store, set_db; simpl.
  by rewrite created_idemp.
Qed.

(** X15.  Starting the server never touches [messages] once it exists:
    [initDB] leaves the table as it is, rows, counter and declaration, and
    so never adds the foreign key to a table made without it; the stored
    rows, the rooms and the outbox are what they were in any case. *)
Theorem initDB_keeps_messages (reachable : bool) (w : World) :
  (∀ t, messages (store w) = Some t →
        messages (store (initDB reachable w)) = Some t) ∧
  stored (store (initDB reachable w)) = stored (store w) ∧
  adapter (initDB reachable w) = adapter w ∧
  outbox (initDB reachable w) = outbox w.
Proof.
  destruct reachable; [|done]. unfold initDB.
  rewrite createTables_store by done.
  destruct w as [d [g u m us i1 i2] n a o]; unfold set_store, set_db, stored; simpl.
  split_and!; try done.
  - intros t ->. unfold created; simpl. by destruct u.
  - unfold created; simpl. destruct m as [m|], u as [u|]; simpl; done.
Qed.

(** ** [setupDatabase] in closed form *)

Lemma insert_into_messages_user_groups D D' t ps now :
  user_groups D = user_groups D' →
  insert_into_messages D t ps now = insert_into_messages D' t ps now.
Proof.
  intros Hu. unfold insert_into_messages, references_ok. by rewrite Hu.
Qed.

Lemma with_samples_user_groups n D D' t msgs :
  user_groups D = user_groups D' →
  with_samples n D t msgs = with_samples n D' t msgs.
Proof.
  intros Hu. revert t. induction msgs as [|msg msgs IH]; intros t; [done|].
  cbn [with_samples]. rewrite (insert_into_messages_user_groups D D') by done.
  destruct (insert_into_messages D' t _ n) as [e|[i t']]; [done|]. apply IH.
Qed.

(** The loop over [sampleMessages]. *)
Lemma run_samples_loop (msgs : list (string * string)) g u t n a o :
  (run (foldr (λ msg rest,
                 _ ← execute INSERT_INTO_messages
                       [JNum 1; JStr msg.1; JStr msg.2;
                        JBool (String.eqb msg.1 "Anonymous")];
                 rest)
              (mret ()) msgs)
       (mkWorld (db_connection true)
          (mkDatabase g u (Some t) true true true) n a o)).2 =
  mkWorld (db_connection true)
    (mkDatabase g u
       (Some (with_samples n (mkDatabase g u (Some t) true true true) t msgs))
       true true true) n a o.
Proof.
  revert t. induction msgs as [|msg msgs IH]; intros t; [done|].
  cbn [foldr with_samples]. script_step.
  unfold sample_parameters.
  destruct (insert_into_messages _ t _ n) as [e|[i t']] eqn:Hins; [done|].
  tidy. rewrite IH. do 3 f_equal. by apply with_samples_user_groups.
Qed.

Lemma setupDatabase_store w :
  db w = db_connection true →
  (run setupDatabase w).2 = set_store w (set_up (now w) (store w)).
Proof.
  destruct w as [d [g u m us i1 i2] n a o]. cbn [db]. intros ->.
  unfold setupDatabase. rewrite run_try_catch.
  destruct g as [g|], m as [m|], i1, i2.
  all: do 6 script_step.
  all: unfold set_up, has_default_group, with_sample_messages;
       cbn [default from_option groups messages user_groups g_rows m_rows id];
       unfold set_store; cbn [db store now adapter outbox].
  all: destruct (bool_decide _) eqn:Hn; cbn [negb].
  all: try (rewrite run_bind_assoc; script_step;
            destruct (insert_into_groups _ _ n) as [e|[i g']] eqn:Hins;
            [done|]; tidy).
  all: rewrite run_ret_bind; script_step.
  all: destruct (_ =? 0) eqn:Hc.
  all: rewrite ?run_ret_bind.
  all: try (rewrite run_bind;
            match goal with
            | |- context [run (foldr ?f ?b sampleMessages)
                            (mkWorld _ (mkDatabase ?g0 ?u0 (Some ?t0) _ _ _) _ _ _)] =>
                pose proof (run_samples_loop sampleMessages g0 u0 t0 n a o) as Hloop;
                destruct (run (foldr f b sampleMessages) _) as [[e|[]] w'];
                cbn [snd] in Hloop; subst w'
            end).
  all: try (do 3 script_step).
  all: cbn [run mret Prog_ret snd].
  all: try done.
  all: do 3 f_equal; by apply with_samples_user_groups.
Qed.

Lemma connection_up_or_not w :
  db w = db_connection true ∨ db w ≠ db_connection true.
Proof. destruct (db w) as [|[]]; [by right|by left|by right]. Qed.

Lemma setupDatabase_refused w :
  db w ≠ db_connection true → (run setupDatabase w).2 = w.
Proof. intros Hdb. by apply run_script_refused. Qed.

(** The rows the loop adds are samples, in their order, from the first. *)
Lemma with_samples_rows n D t msgs :
  ∃ l, m_rows (with_samples n D t msgs) = m_rows t ++ l ∧
       sender_and_text <$> l `prefix_of` sample_sender_and_text <$> msgs ∧
       Forall (λ r, group_id r = Some 1 ∧ created_at r = n ∧
                    is_anonymous r =
                      Some (if bool_decide (sender_name r = Some "Anonymous")
                            then 1 else 0)) l.
Proof.
  revert t. induction msgs as [|msg msgs IH]; intros t.
  { exists []. by rewrite app_nil_r. }
  cbn [with_samples].
  destruct (insert_into_messages D t _ n) as [e|[i t']] eqn:Hins.
  { exists []. rewrite app_nil_r. split_and!; [done|apply prefix_nil|done]. }
  apply insert_into_messages_row in Hins
    as (gid & sn & txt & anon & Hg & Hs & Hm & Ha & -> & ->).
  destruct (IH (mkMessagesTable (group_id_not_null t) (references_user_groups t)
                  (m_rows t ++ [mkMessage (m_auto_increment t) gid sn txt anon n])
                  (m_auto_increment t + 1))) as (l & Hl & Hp & Hall).
  exists (mkMessage (m_auto_increment t) gid sn txt anon n :: l).
  cbn [m_rows] in Hl. rewrite Hl, <-app_assoc. split; [done|].
  simpl in Hg, Hs, Hm, Ha.
  destruct (Z.of_nat (String.length msg.1) <=? 255); [|done].
  destruct (Z.of_nat (String.length msg.2) <=? 65535); [|done].
  simplify_eq/=. split.
  - unfold sender_and_text at 1, sample_sender_and_text at 1; simpl.
    by apply prefix_cons.
  - constructor; [|done]. simpl. split_and!; [done..|].
    destruct (String.eqb_spec msg.1 "Anonymous") as [->|Hne].
    + by rewrite bool_decide_eq_true_2.
    + rewrite bool_decide_eq_false_2; [done|]. by intros [=].
Qed.

Lemma with_samples_settled n D D' t msgs :
  user_groups D = user_groups D' → msgs ≠ [] →
  (if Z.of_nat (List.length (m_rows (with_samples n D t msgs))) =? 0
   then with_samples n D' (with_samples n D t msgs) msgs
   else with_samples n D t msgs) = with_samples n D t msgs.
Proof.
  intros Hu Hne. destruct msgs as [|msg rest]; [done|].
  cbn [with_samples].
  destruct (insert_into_messages D t _ n) as [e|[i t']] eqn:Hins.
  - destruct (_ =? 0); [|done]. cbn [with_samples].
    by rewrite <-(insert_into_messages_user_groups D D'), Hins.
  - apply insert_into_messages_inv in Hins as (r & _ & _ & _ & _ & Hr & _).
    destruct (with_samples_rows n D t' rest) as (l & Hl & _).
    rewrite Hl, Hr, !length_app. simpl.
    by destruct (Z.eqb_spec
                   (Z.of_nat (List.length (m_rows t) + 1 + List.length l)) 0);
      [lia|].
Qed.

Lemma with_sample_messages_idemp n D D' t :
  user_groups D = user_groups D' →
  with_sample_messages n D' (with_sample_messages n D t) =
    with_sample_messages n D t.
Proof.
  intros Hu. unfold with_sample_messages at 2 3.
  destruct (Z.of_nat (List.length (m_rows t)) =? 0) eqn:Hc.
  - unfold with_sample_messages. by apply with_samples_settled.
  - unfold with_sample_messages. by rewrite Hc.
Qed.

Lemma set_up_idemp n D : set_up n (set_up n D) = set_up n D.
Proof.
  destruct D as [g u m us i1 i2]. unfold set_up at 2 3.
  cbn [groups messages user_groups].
  set (g0 := default (mkGroupsTable [] 1) g).
  set (t0 := default (mkMessagesTable true false [] 1) m).
  destruct (has_default_group g0) eqn:Hn.
  - unfold set_up. cbn [groups messages user_groups default from_option id].
    rewrite Hn. by rewrite with_sample_messages_idemp.
  - destruct (insert_into_groups g0 _ n) as [e|[i g']] eqn:Hins.
    + unfold set_up. cbn [groups messages user_groups default from_option id].
      by rewrite Hn, Hins.
    + unfold set_up. cbn [groups messages user_groups default from_option id].
      rewrite (has_default_group_after_insert _ _ _ _ Hins).
      by rewrite with_sample_messages_idemp.
Qed.

(** X16.  Running the setup script again changes nothing: [setupDatabase]
    run on the world it has left returns that world.  The default group
    is found by its name and the samples are guarded by the count, and a
    run that stopped at a failing insert stops there again. *)
Theorem setupDatabase_idempotent (w : World) :
  (run setupDatabase (run setupDatabase w).2).2 = (run setupDatabase w).2.
Proof.
  destruct (connection_up_or_not w) as [Hdb|Hdb].
  - rewrite (setupDatabase_store w) by done.
    rewrite setupDatabase_store by (by destruct w).
    destruct w as [d D n a o]; unfold set_store; simpl.
    by rewrite set_up_idemp.
  - by rewrite !setupDatabase_refused by (by rewrite ?setupDatabase_refused).
Qed.

(** X17.  The setup script only appends to [messages], and only samples:
    the rows it adds are the first so many of [sampleMessages], each in
    group 1, stamped with the store's time and flagged anonymous exactly
    when its sender is 'Anonymous'; a table that holds a row gets none.
    It never sends anything. *)
Theorem setupDatabase_adds_only_samples (w : World) :
  ∃ l, stored (store (run setupDatabase w).2) = stored (store w) ++ l ∧
       (stored (store w) ≠ [] → l = []) ∧
       sender_and_text <$> l `prefix_of`
         sample_sender_and_text <$> sampleMessages ∧
       Forall (λ r, group_id r = Some 1 ∧ created_at r = now w ∧
                    is_anonymous r =
                      Some (if bool_decide (sender_name r = Some "Anonymous")
                            then 1 else 0)) l ∧
       adapter (run setupDatabase w).2 = adapter w ∧
       outbox (run setupDatabase w).2 = outbox w.
Proof.
  destruct (connection_up_or_not w) as [Hdb|Hdb]; last first.
  { rewrite setupDatabase_refused by done. exists [].
    rewrite app_nil_r. split_and!; try done. apply prefix_nil. }
  rewrite setupDatabase_store by done.
  destruct w as [d [g u m us i1 i2] n a o]; unfold set_store, stored.
  cbn [store now adapter outbox db messages].
  set (t0 := default (mkMessagesTable true false [] 1) m).
  assert (match m with Some t => m_rows t | None => [] end = m_rows t0) as ->
    by (by destruct m).
  assert (∀ D, ∃ l, m_rows (with_sample_messages n D t0) = m_rows t0 ++ l ∧
                    (m_rows t0 ≠ [] → l = []) ∧
                    sender_and_text <$> l `prefix_of`
                      sample_sender_and_text <$> sampleMessages ∧
                    Forall (λ r, group_id r = Some 1 ∧ created_at r = n ∧
                                 is_anonymous r =
                                   Some (if bool_decide
                                              (sender_name r = Some "Anonymous")
                                         then 1 else 0)) l) as Hs.
  { intros D. unfold with_sample_messages.
    destruct (Z.eqb_spec (Z.of_nat (List.length (m_rows t0))) 0) as [Hz|Hz].
    - destruct (with_samples_rows n D t0 sampleMessages) as (l & Hl & Hp & Hall).
      exists l. split_and!; try done.
      intros Hne. by destruct (m_rows t0).
    - exists []. rewrite app_nil_r. split_and!; try done. apply prefix_nil. }
  assert (∃ l, m_rows t0 = m_rows t0 ++ l ∧ (m_rows t0 ≠ [] → l = []) ∧
               sender_and_text <$> l `prefix_of`
                 sample_sender_and_text <$> sampleMessages ∧
               Forall (λ r, group_id r = Some 1 ∧ created_at r = n ∧
                            is_anonymous r =
                              Some (if bool_decide
                                         (sender_name r = Some "Anonymous")
                                    then 1 else 0)) l) as Hnone.
  { exists []. rewrite app_nil_r. split_and!; try done. apply prefix_nil. }
  unfold set_up. cbn [groups messages user_groups].
  fold t0.
  destruct (has_default_group _).
  - cbn [messages]. destruct (Hs (mkDatabase (Some (default (mkGroupsTable [] 1) g)) u
                                    (Some t0) true true true))
      as (l & ? & ? & ? & ?). by exists l.
  - destruct (insert_into_groups _ _ n) as [e|[i g']].
    + cbn [messages]. destruct Hnone as (l & ? & ? & ? & ?). by exists l.
    + cbn [messages]. destruct (Hs (mkDatabase (Some (default (mkGroupsTable [] 1) g)) u
                                      (Some t0) true true true))
        as (l & ? & ? & ? & ?). by exists l.
Qed.

Lemma no_default_group_named t :
  has_default_group t = false →
  Forall (λ g, name g ≠ "Fun Friday Group") (g_rows t).
Proof.
  unfold has_default_group. rewrite negb_false_iff, bool_decide_eq_true.
  induction (g_rows t) as [|g l IH]; [done|]. simpl.
  destruct (String.eqb_spec (name g) "Fun Friday Group") as [He|He]; [done|].
  intros Hl. constructor; [done|]. by apply IH.
Qed.

(** X18.  The setup script never makes a second default group: it leaves
    the rows of [groups] as they are and adds at most one, named
    'Fun Friday Group' and stamped with the store's time, and that only
    when no row has the name. *)
Theorem setupDatabase_default_group_once (w : World) :
  ∃ lg, listed (store (run setupDatabase w).2) = listed (store w) ++ lg ∧
        (lg = [] ∨
         (∃ i, lg = [mkGroup i "Fun Friday Group" (now w)]) ∧
         Forall (λ g, name g ≠ "Fun Friday Group") (listed (store w))).
Proof.
  destruct (connection_up_or_not w) as [Hdb|Hdb]; last first.
  { rewrite setupDatabase_refused by done. exists [].
    rewrite app_nil_r. split; [done|by left]. }
  rewrite setupDatabase_store by done.
  destruct w as [d [g u m us i1 i2] n a o]; unfold set_store, listed.
  cbn [store now groups].
  set (g0 := default (mkGroupsTable [] 1) g).
  assert (match g with Some t => g_rows t | None => [] end = g_rows g0) as ->
    by (by destruct g).
  unfold set_up. cbn [groups messages user_groups]. fold g0.
  destruct (has_default_group g0) eqn:Hn.
  { exists []. rewrite app_nil_r. split; [done|by left]. }
  destruct (insert_into_groups g0 _ n) as [e|[i g']] eqn:Hins.
  { exists []. rewrite app_nil_r. split; [done|by left]. }
  cbn [groups]. unfold insert_into_groups in Hins; simpl in Hins.
  destruct (check _ _); [done|]. simpl in Hins. injection Hins as <- <-.
  eexists. split; [done|]. right. split; [by eexists|].
  by apply no_default_group_named.
Qed.

(** ** The two scripts together *)

Lemma created_set_up n D :
  user_groups D = None → created n (set_up n D) = set_up n D.
Proof.
  destruct D as [g u m us i1 i2]. cbn [user_groups]. intros ->.
  unfold set_up. cbn [groups messages user_groups].
  destruct (has_default_group _); [done|].
  by destruct (insert_into_groups _ _ n) as [e|[i g']].
Qed.

Lemma set_up_created n D :
  user_groups D = None → set_up n (created n D) = set_up n D.
Proof.
  destruct D as [g u m us i1 i2]. cbn [user_groups]. intros ->.
  unfold created. cbn [groups messages user_groups].
  by destruct m as [m|], g as [g|].
Qed.

(** X19.  While [user_groups] is missing the two scripts do not get in
    each other's way: starting the server on a database the setup script
    has run on changes nothing in it, and running the setup script after
    the server has started leaves the database the setup script alone
    leaves. *)
Theorem scripts_in_either_order (w : World) :
  user_groups (store w) = None →
  store (initDB true (run setupDatabase (set_db w (db_connection true))).2)
    = store (run setupDatabase (set_db w (db_connection true))).2 ∧
  store (run setupDatabase (initDB true w)).2
    = store (run setupDatabase (set_db w (db_connection true))).2.
Proof.
  intros Hu. unfold initDB.
  assert (∀ w0, set_db (run setupDatabase (set_db w0 (db_connection true))).2
                  (db_connection true)
                = (run setupDatabase (set_db w0 (db_connection true))).2) as Hdb.
  { intros w0. rewrite setupDatabase_store by done. by destruct w0. }
  rewrite Hdb.
  rewrite (createTables_store (run setupDatabase _).2)
    by (rewrite setupDatabase_store by done; by destruct w).
  rewrite (createTables_store (set_db w _)) by done.
  rewrite !setupDatabase_store by (by destruct w).
  destruct w as [d D n a o]; unfold set_store, set_db; cbn [store now db] in *.
  by rewrite created_set_up, set_up_created.
Qed.

(** ** The further results at concrete inputs *)

Lemma only_a_missing_body_escapes_witness :
  run (post_request "1" (data_value JUndefined)) started_world =
    (inl TypeError_destructure, started_world) ∧
  (run (post_request "1" (data_object alice_hi)) started_world).1 =
    inr (res_json 200 (row_json (Some hi_row))).
Proof.
  destruct (only_a_missing_body_escapes started_world)
    as (_ & Hu & _ & _ & Hv & _).
  split; [apply Hu|].
  destruct (Hv "1" (data_object alice_hi)) as [reply Hr]; [done..|].
  rewrite Hr. vm_compute in Hr. by injection Hr as <-.
Defined.

Lemma post_step_by_step_witness :
  hi_row ∈ stored (store (world after_lost_between)) ∧
  pool after_lost_between !! 0%nat =
    Some (Ret (res_json 500 (error_json PROTOCOL_CONNECTION_LOST))) ∧
  outbox (world after_lost_between) = [].
Proof.
  destruct (post_step_by_step started
              (default started
                 (schedule [arrive (POST_messages "1" alice_hi)] started))
              (default started
                 (schedule [arrive (POST_messages "1" alice_hi); resume 0]
                    started))
              "1" alice_hi [])
    as [(e & He & _) | (m & Hst & _ & _ & _ & _ & _ & Hnext)].
  - vm_compute. split; repeat constructor.
  - apply not_elem_of_nil.
  - vm_compute; reflexivity.
  - vm_compute; reflexivity.
  - vm_compute in He. discriminate He.
  - vm_compute in Hst. injection Hst as <-.
    destruct (Hnext [lose_connection]
                (default started
                   (schedule [arrive (POST_messages "1" alice_hi); resume 0;
                              lose_connection] started))
                after_lost_between)
      as (Hin & [(Hup & _)|(_ & Hrep & Hw)]).
    + by intros [=]%list_elem_of_singleton.
    + vm_compute; reflexivity.
    + vm_compute; reflexivity.
    + vm_compute in Hup. discriminate Hup.
    + split_and!; [exact Hin|exact Hrep|].
      rewrite Hw. vm_compute; reflexivity.
Defined.

Lemma committed_row_carries_request_witness :
  group_id hi_row = Some 1 ∧ message hi_row = "hi"%string ∧
  sender_name hi_row = Some "Alice"%string ∧ is_anonymous hi_row = Some 1.
Proof.
  destruct (committed_row_carries_request started_world after_post 1
              alice_hi hi_row) as (Hg & Hm & _ & Hs & Ha).
  - vm_compute. split; repeat constructor.
  - vm_compute; reflexivity.
  - split_and!.
    + exact Hg.
    + by apply Hm.
    + by apply Hs.
    + apply (Ha false). right; right; reflexivity.
Defined.

Lemma history_gains_the_posted_row_witness :
  history_rows (run (get_messages (pretty 1)) after_post).1 ≡ₚ
    history_rows (run (get_messages (pretty 1)) started_world).1 ++ [hi_row] ∧
  history_rows (run (get_messages (pretty 2)) after_post).1 ≡ₚ
    history_rows (run (get_messages (pretty 2)) started_world).1 ++ [].
Proof.
  split.
  - apply (history_gains_the_posted_row started_world after_post 1 1
             alice_hi hi_row).
    + vm_compute. split; repeat constructor.
    + vm_compute; reflexivity.
  - apply (history_gains_the_posted_row started_world after_post 1 2
             alice_hi hi_row).
    + vm_compute. split; repeat constructor.
    + vm_compute; reflexivity.
Defined.

Lemma membership_decides_delivery_witness :
  "A" ∈ default ∅
          (recipients <$>
             last (outbox (run (post_messages "1" alice_hi)
                             (run (on_join_group "A" (JNum 1)) started_world).2).2)) ∧
  "A" ∉ default ∅
          (recipients <$>
             last (outbox (run (post_messages "1" alice_hi)
                             (run (on_leave_group "A" (JNum 1))
                                (world after_hi)).2).2)).
Proof.
  destruct (membership_decides_delivery started_world "A" "1" (JNum 1) alice_hi)
    as (Hjoin & _); [right; exists 1; split; reflexivity|].
  destruct (membership_decides_delivery (world after_hi) "A" "1" (JNum 1) alice_hi)
    as (_ & Hleave); [right; exists 1; split; reflexivity|].
  split.
  - destruct (Hjoin (Some hi_row)
                (run (post_messages "1" alice_hi)
                   (run (on_join_group "A" (JNum 1)) started_world).2).2)
      as (e & Hout & _ & _ & Hin & _); [vm_compute; reflexivity|].
    rewrite Hout, last_snoc. exact Hin.
  - destruct (Hleave (Some (mkMessage 8 (Some 1) (Some "Alice") "hi" (Some 1) 100))
                (run (post_messages "1" alice_hi)
                   (run (on_leave_group "A" (JNum 1)) (world after_hi)).2).2)
      as (e & Hout & _ & _ & Hnot & _); [vm_compute; reflexivity|].
    rewrite Hout, last_snoc. exact Hnot.
Defined.

Lemma join_then_leave_restores_witness :
  subscribersOf "group_1"
    (adapter (run (on_leave_group "C" (JNum 1))
                (run (on_join_group "C" (JNum 1)) (world after_hi)).2).2)
    = subscribersOf "group_1" (adapter (world after_hi)) ∧
  store (run (on_leave_group "C" (JNum 1))
           (run (on_join_group "C" (JNum 1)) (world after_hi)).2).2
    = store (world after_hi).
Proof.
  destruct (join_then_leave_restores (world after_hi) "C" (JNum 1))
    as (Hsub & _ & Hstore & _).
  - apply (steps_consistent started).
    + apply (schedule_steps hi_schedule). vm_compute; reflexivity.
    + apply consistent_empty.
  - intros Hin. vm_compute in Hin. discriminate Hin.
  - split; [apply Hsub|exact Hstore].
Defined.

Lemma disconnect_spares_the_others_witness :
  ("B" ∈ subscribersOf "group_1" (adapter (world after_close)) ↔
   "B" ∈ subscribersOf "group_1" (adapter (world after_hi))) ∧
  store (world after_close) = store (world after_hi).
Proof.
  destruct (disconnect_spares_the_others started after_hi after_close "A")
    as (Hsub & Hstore & _).
  - split_and!; vm_compute; reflexivity.
  - apply (schedule_steps hi_schedule). vm_compute; reflexivity.
  - vm_compute; reflexivity.
  - split; [by apply Hsub|exact Hstore].
Defined.

Lemma requests_leave_schema_and_groups_witness :
  same_schema (store (world started)) (store (world after_bye)) ∧
  stored (store (world started)) `prefix_of` stored (store (world after_bye)).
Proof.
  apply requests_leave_schema_and_groups.
  - split_and!; vm_compute; reflexivity.
  - apply (schedule_steps (hi_schedule ++ bye_schedule)). vm_compute; reflexivity.
Defined.

Lemma groups_newest_first_or_500_witness :
  get_groups server_made_world =
    groups_json 200 [mkGroup 1 "Fun Friday Group" 100] ∧
  get_groups started_world = groups_error 500 ER_NO_SUCH_TABLE.
Proof.
  destruct (groups_newest_first_or_500 server_made_world) as (Hok & _).
  destruct (groups_newest_first_or_500 started_world) as (_ & Hfail).
  split.
  - destruct (Hok (mkGroupsTable [mkGroup 1 "Fun Friday Group" 100] 2))
      as (l & Hl & _); [reflexivity..|].
    rewrite Hl. vm_compute in Hl. injection Hl as <-. reflexivity.
  - apply Hfail. right; right. split_and!; reflexivity.
Defined.

Lemma groups_route_has_no_table_witness :
  user_groups (store (run setupDatabase started_world).2) = None ∧
  user_groups (store (initDB true not_started)) = None ∧
  user_groups (store (world after_bye)) = None ∧
  get_groups (world after_bye) = groups_error 500 ER_NO_SUCH_TABLE.
Proof.
  destruct (groups_route_has_no_table started_world)
    as (Hrun & _ & Hsteps & Hget); [reflexivity|].
  destruct (groups_route_has_no_table not_started)
    as (_ & Hstart & _); [reflexivity|].
  assert (user_groups (store (world after_bye)) = None) as Hnone.
  { apply (Hsteps []).
    apply (schedule_steps (hi_schedule ++ bye_schedule)). vm_compute; reflexivity. }
  split_and!; [apply Hrun|apply Hstart|exact Hnone|].
  destruct (Hget _ Hnone) as (e & He). rewrite He.
  vm_compute in He. injection He as <-. reflexivity.
Defined.

Lemma test_route_reports_the_start_witness :
  db (world after_loss) = db_connection false ∧
  get_test "2024-01-01T00:00:00.000Z" (world after_loss) =
    mkTestReply "Server is running!" "2024-01-01T00:00:00.000Z" "Connected".
Proof.
  split; [vm_compute; reflexivity|].
  apply (test_route_reports_the_start not_started true).
  - reflexivity.
  - apply (schedule_steps (hi_schedule ++ [lose_connection])).
    vm_compute; reflexivity.
Defined.

Lemma initDB_keeps_messages_witness :
  messages (store started_world) = messages setup_database ∧
  stored (store started_world) = stored setup_database.
Proof.
  destruct (initDB_keeps_messages true not_started) as (Hsame & Hst & _).
  split; [|exact Hst].
  destruct (messages setup_database) as [t|] eqn:Ht.
  - by apply Hsame.
  - vm_compute in Ht. discriminate Ht.
Defined.

Lemma setupDatabase_adds_only_samples_witness :
  stored (store (run setupDatabase after_post).2) = stored (store after_post).
Proof.
  destruct (setupDatabase_adds_only_samples after_post) as (l & Hl & Hnone & _).
  rewrite Hl, Hnone, app_nil_r; [reflexivity|].
  vm_compute. discriminate.
Defined.

Lemma scripts_in_either_order_witness :
  store started_world = setup_database ∧
  store (run setupDatabase
           (initDB true (mkWorld db_undefined empty_database 100 (mkAdapter ∅ ∅) []))).2
    = setup_database.
Proof.
  destruct (scripts_in_either_order
              (mkWorld db_undefined empty_database 100 (mkAdapter ∅ ∅) []))
    as (Hstart & Hsetup); [reflexivity|].
  split.
  - transitivity
      (store (initDB true
                (run setupDatabase
                   (set_db (mkWorld db_undefined empty_database 100
                              (mkAdapter ∅ ∅) [])
                      (db_connection true))).2));
      [vm_compute; reflexivity|].
    rewrite Hstart. vm_compute; reflexivity.
  - rewrite Hsetup. vm_compute; reflexivity.
Defined.
